(** * A shallow embedding of [src/neural_network.py]

    The module defines one class, [FFNN], a parameter container with a
    forward pass.  Tensors are the tensor library's objects: a shape and
    the entries it addresses, here over the real numbers.  Every call
    that may raise is a function into [result]. *)

From Stdlib Require Import List ZArith Bool Arith Lia Reals Lra.
From Stdlib Require String Ascii DecimalString.
Import ListNotations.

(** ** Exceptions and the error monad *)

(** The two parameter lists a subscript can run out of. *)
Inductive param_list := Weights | Biases.

(** Why the tensor library refuses an operation ([RuntimeError]). *)
Inductive runtime_reason :=
| NegativeDimension   (* torch.rand / torch.zeros with a negative size *)
| MmNotMatrix         (* torch.mm on an operand that is not 2-D *)
| MmMismatch          (* torch.mm: inner sizes differ *)
| NotBroadcastable    (* a + b: shapes cannot be broadcast *)
| ItemNotScalar       (* t.item() on a tensor without exactly one entry *)
| DimOutOfRange.      (* softmax along an axis the tensor does not have *)

Inductive error :=
| AssertionError
| IndexError (l : param_list)
| RuntimeError (r : runtime_reason)
| Raised (code : nat).   (* whatever a caller-supplied activation raises *)

Inductive result (A : Type) :=
| Ok (a : A)
| Error (e : error).

Arguments Ok {A} a.
Arguments Error {A} e.

Definition bind {A B : Type} (c : result A) (k : A -> result B) : result B :=
  match c with
  | Ok a => k a
  | Error e => Error e
  end.

Notation "x <- c ;; k" := (bind c (fun x => k))
  (at level 61, c at next level, right associativity).

Fixpoint mapM {A B : Type} (f : A -> result B) (l : list A) : result (list B) :=
  match l with
  | [] => Ok []
  | a :: l' => b <- f a ;; bs <- mapM f l' ;; Ok (b :: bs)
  end.

(** ** Tensors *)

Open Scope R_scope.

Record Tensor := mkTensor {
  shape : list nat;
  entry : list nat -> R
}.

Fixpoint sum_upto (f : nat -> R) (n : nat) : R :=
  match n with
  | O => 0
  | S k => sum_upto f k + f k
  end.

Definition numel (t : Tensor) : nat := fold_right Nat.mul 1%nat (shape t).

(** [torch.rand(r, c)]: the entries come from the generator, [gen].
    The sizes are those the library can allocate: what it does with a
    size beyond its integer range or its memory is not modelled. *)
Definition torch_rand (gen : list nat -> R) (r c : Z) : result Tensor :=
  if ((r <? 0) || (c <? 0))%Z then Error (RuntimeError NegativeDimension)
  else Ok (mkTensor [Z.to_nat r; Z.to_nat c] gen).

(** [torch.zeros(n)], for a size the library can allocate. *)
Definition torch_zeros (n : Z) : result Tensor :=
  if (n <? 0)%Z then Error (RuntimeError NegativeDimension)
  else Ok (mkTensor [Z.to_nat n] (fun _ => 0)).

(** [torch.mm(a, b)] *)
Definition mm (a b : Tensor) : result Tensor :=
  match shape a, shape b with
  | [n; m], [m'; p] =>
      if (m =? m')%nat then
        Ok (mkTensor [n; p]
              (fun idx =>
                 match idx with
                 | [i; j] => sum_upto (fun k => entry a [i; k] * entry b [k; j]) m
                 | _ => 0
                 end))
      else Error (RuntimeError MmMismatch)
  | _, _ => Error (RuntimeError MmNotMatrix)
  end.

(** Broadcasting, on shapes read from the last axis backwards. *)
Fixpoint broadcast_rev (s1 s2 : list nat) : result (list nat) :=
  match s1, s2 with
  | [], s => Ok s
  | s, [] => Ok s
  | a :: s1', b :: s2' =>
      if (a =? b)%nat then s <- broadcast_rev s1' s2' ;; Ok (a :: s)
      else if (a =? 1)%nat then s <- broadcast_rev s1' s2' ;; Ok (b :: s)
      else if (b =? 1)%nat then s <- broadcast_rev s1' s2' ;; Ok (a :: s)
      else Error (RuntimeError NotBroadcastable)
  end.

Definition broadcast_shapes (s1 s2 : list nat) : result (list nat) :=
  s <- broadcast_rev (rev s1) (rev s2) ;; Ok (rev s).

(** The index an operand of shape [s] is read at, for the index [idx] of
    the broadcast result: its own trailing axes, an axis of size 1
    always read at 0. *)
Fixpoint clamp (s idx : list nat) : list nat :=
  match s, idx with
  | d :: s', i :: idx' => (if (d =? 1)%nat then O else i) :: clamp s' idx'
  | _, _ => []
  end.

Definition operand_index (s idx : list nat) : list nat :=
  clamp s (skipn (length idx - length s) idx).

(** [a + b] *)
Definition add (a b : Tensor) : result Tensor :=
  s <- broadcast_shapes (shape a) (shape b) ;;
  Ok (mkTensor s
        (fun idx => entry a (operand_index (shape a) idx)
                    + entry b (operand_index (shape b) idx))).

(** [t.item()] *)
Definition item (t : Tensor) : result R :=
  if (numel t =? 1)%nat then Ok (entry t (map (fun _ => O) (shape t)))
  else Error (RuntimeError ItemNotScalar).

(** ** The activation library

    [activation_functions.py] is imported by the module and is not part
    of the sources at hand. *)

(** An index with its axis [d] replaced. *)
Fixpoint set_axis (idx : list nat) (d k : nat) : list nat :=
  match idx, d with
  | [], _ => []
  | _ :: rest, O => k :: rest
  | i :: rest, S d' => i :: set_axis rest d' k
  end.

(** Modelled from the spec: [softmax(x, dim)] of the absent
    [activation_functions] module, "normalization turning a vector of
    real values into a probability distribution": each entry is its
    exponential over the sum of the exponentials along axis [dim]. *)
Definition softmax (t : Tensor) (dim : nat) : result Tensor :=
  match nth_error (shape t) dim with
  | Some c =>
      Ok (mkTensor (shape t)
            (fun idx =>
               exp (entry t idx)
               / sum_upto (fun k => exp (entry t (set_axis idx dim k))) c))
  | None => Error (RuntimeError DimOutOfRange)
  end.

(** An activation as the network calls it: [f(t)] when the parameter is
    [None], [f(t, p)] otherwise. *)
Definition ActivationFunction := Tensor -> option R -> result Tensor.

Definition elementwise (g : R -> R) : ActivationFunction :=
  fun t _ => Ok (mkTensor (shape t) (fun idx => g (entry t idx))).

(** Modelled from the spec: [relu(x)] of the absent [activation_functions]
    module, an elementwise tensor transform. *)
Definition relu : ActivationFunction := elementwise (Rmax 0).

(** Modelled from the spec: [sig(x)] of the absent [activation_functions]
    module, an elementwise tensor transform. *)
Definition sig : ActivationFunction := elementwise (fun x => / (1 + exp (- x))).

(** ** The network *)

Record FFNN := mkFFNN {
  size : nat;
  weights : list Tensor;
  biases : list Tensor;
  activation_functions : list ActivationFunction;
  function_parameters : list (option Tensor)
}.

(** The list [neurons] of [__init__]: [[size_in]], extended by
    [hidden_sizes], with [size_out] appended. *)
Definition neurons_of (size_in : Z) (hidden_sizes : list Z) (size_out : Z) : list Z :=
  ([size_in] ++ hidden_sizes) ++ [size_out].

(** [FFNN.__init__].  [rng i] is what the generator yields at the
    [i]-th call of [torch.rand]. *)
Definition init (rng : nat -> list nat -> R)
    (size_in : Z) (hidden_sizes : list Z)
    (activations : list ActivationFunction)
    (parameters : list (option Tensor))
    (size_out : Z) : result FFNN :=
  if (size_out <? 2)%Z then Error AssertionError
  else
    let neurons := neurons_of size_in hidden_sizes size_out in
    ws <- mapM (fun i => torch_rand (rng i) (nth i neurons 0%Z) (nth (i + 1) neurons 0%Z))
               (seq 0 (length neurons - 1)) ;;
    bs <- mapM torch_zeros hidden_sizes ;;
    Ok (mkFFNN (length activations) ws bs activations parameters).

(** [l[-1]] on a parameter list. *)
Fixpoint last_item (which : param_list) (l : list Tensor) : result Tensor :=
  match l with
  | [] => Error (IndexError which)
  | [t] => Ok t
  | _ :: l' => last_item which l'
  end.

(** [zip] of four sequences stops with the shortest. *)
Fixpoint zip4 {A B C D : Type} (la : list A) (lb : list B) (lc : list C) (ld : list D)
  : list (A * B * C * D) :=
  match la, lb, lc, ld with
  | a :: la', b :: lb', c :: lc', d :: ld' => (a, b, c, d) :: zip4 la' lb' lc' ld'
  | _, _, _, _ => []
  end.

(** One pass of the body of the [for] of [forward]. *)
Definition layer_step (out : Tensor)
    (l : Tensor * Tensor * ActivationFunction * option Tensor) : result Tensor :=
  let '(w, b, activation, params) := l in
  match params with
  | None =>
      m <- mm out w ;; s <- add m b ;; activation s None
  | Some p =>
      m <- mm out w ;; s <- add m b ;; v <- item p ;; activation s (Some v)
  end.

Fixpoint run_layers (ls : list (Tensor * Tensor * ActivationFunction * option Tensor))
    (out : Tensor) : result Tensor :=
  match ls with
  | [] => Ok out
  | l :: ls' => out' <- layer_step out l ;; run_layers ls' out'
  end.

(** What the [for] of [forward] iterates over. *)
Definition loop_items (net : FFNN) :=
  zip4 (removelast (weights net)) (removelast (biases net))
       (activation_functions net) (function_parameters net).

(** [FFNN.forward] *)
Definition forward (net : FFNN) (nn_input : Tensor) : result Tensor :=
  out <- run_layers (loop_items net) nn_input ;;
  w <- last_item Weights (weights net) ;;
  m <- mm out w ;;
  b <- last_item Biases (biases net) ;;
  s <- add m b ;;
  softmax s 1.

(** The setters of the three properties. *)
Definition set_weights (net : FFNN) (nn_weights : list Tensor) : FFNN :=
  mkFFNN (size net) nn_weights (biases net)
         (activation_functions net) (function_parameters net).

Definition set_biases (net : FFNN) (nn_biases : list Tensor) : FFNN :=
  mkFFNN (size net) (weights net) nn_biases
         (activation_functions net) (function_parameters net).

Definition set_activation_functions (net : FFNN) (nn_functions : list ActivationFunction) : FFNN :=
  mkFFNN (size net) (weights net) (biases net)
         nn_functions (function_parameters net).

(** The operations of the class, and the state each leaves behind.
    [forward], [backward] (a stub that computes a local value and
    returns nothing), the getters and the printers assign no
    attribute. *)
Inductive operation :=
| CallForward (nn_input : Tensor)
| CallBackward (x y y_pred : Tensor)
| PrintWeights
| PrintBiases
| PrintActivationFunctions
| GetWeights
| GetBiases
| GetActivationFunctions
| SetWeights (nn_weights : list Tensor)
| SetBiases (nn_biases : list Tensor)
| SetActivationFunctions (nn_functions : list ActivationFunction).

Definition state_after (net : FFNN) (op : operation) : FFNN :=
  match op with
  | SetWeights ws => set_weights net ws
  | SetBiases bs => set_biases net bs
  | SetActivationFunctions fs => set_activation_functions net fs
  | _ => net
  end.

(** The invariant of the data model. *)
Definition lists_aligned (net : FFNN) : Prop :=
  length (weights net) = S (length (biases net)).

(** ** The forward pass as the specification words it

    One transition per hidden layer, each with its own bias, then the
    last weight matrix with the last bias under softmax. *)
Definition reference_items (net : FFNN) :=
  zip4 (removelast (weights net)) (biases net)
       (activation_functions net) (function_parameters net).

Definition forward_reference (net : FFNN) (nn_input : Tensor) : result Tensor :=
  out <- run_layers (reference_items net) nn_input ;;
  w <- last_item Weights (weights net) ;;
  m <- mm out w ;;
  b <- last_item Biases (biases net) ;;
  s <- add m b ;;
  softmax s 1.

Close Scope R_scope.

(** ** Shapes

    Whether a tensor operation succeeds, and the shape of what it
    returns, is a function of the shapes of its operands.  These are the
    shape-level readings of the operations above. *)

Definition result_shape (r : result Tensor) : result (list nat) :=
  t <- r ;; Ok (shape t).

Definition mm_shape (sa sb : list nat) : result (list nat) :=
  match sa, sb with
  | [n; m], [m'; p] =>
      if m =? m' then Ok [n; p] else Error (RuntimeError MmMismatch)
  | _, _ => Error (RuntimeError MmNotMatrix)
  end.

Definition softmax_shape (s : list nat) (dim : nat) : result (list nat) :=
  match nth_error s dim with
  | Some _ => Ok s
  | None => Error (RuntimeError DimOutOfRange)
  end.

(** An activation that returns, for every argument, a tensor of the
    shape it was given: the elementwise transforms. *)
Definition shape_preserving (f : ActivationFunction) : Prop :=
  forall t p, exists t', f t p = Ok t' /\ shape t' = shape t.

Definition step_shape (s : list nat) (l : list nat * list nat * option Tensor)
  : result (list nat) :=
  let '(sw, sb, params) := l in
  match params with
  | None => m <- mm_shape s sw ;; broadcast_shapes m sb
  | Some p => m <- mm_shape s sw ;; s' <- broadcast_shapes m sb ;; _ <- item p ;; Ok s'
  end.

Fixpoint layers_shape (ls : list (list nat * list nat * option Tensor)) (s : list nat)
  : result (list nat) :=
  match ls with
  | [] => Ok s
  | l :: ls' => s' <- step_shape s l ;; layers_shape ls' s'
  end.

Definition item_shapes (l : Tensor * Tensor * ActivationFunction * option Tensor) :=
  let '(w, b, _, params) := l in (shape w, shape b, params).

Definition item_activation (l : Tensor * Tensor * ActivationFunction * option Tensor) :=
  let '(_, _, f, _) := l in f.

(** The shape-level reading of [forward]. *)
Definition forward_shape (net : FFNN) (s : list nat) : result (list nat) :=
  out <- layers_shape (map item_shapes (loop_items net)) s ;;
  w <- result_shape (last_item Weights (weights net)) ;;
  m <- mm_shape out w ;;
  b <- result_shape (last_item Biases (biases net)) ;;
  s' <- broadcast_shapes m b ;;
  softmax_shape s' 1.

(** The shapes of the weight matrices for a list of layer widths. *)
Fixpoint layer_shapes (ns : list nat) : list (list nat) :=
  match ns with
  | a :: (b :: _) as rest => [a; b] :: layer_shapes rest
  | _ => []
  end.

(** [item_shapes] over a [zip4], from the shapes alone. *)
Fixpoint zip_shapes (sws sbs : list (list nat)) (n_activations : nat)
    (ps : list (option Tensor)) : list (list nat * list nat * option Tensor) :=
  match sws, sbs, n_activations, ps with
  | sw :: sws', sb :: sbs', S n, p :: ps' => (sw, sb, p) :: zip_shapes sws' sbs' n ps'
  | _, _, _, _ => []
  end.

(** A parameter the loop can pass on: [None], or a one-entry tensor. *)
Definition param_ok (p : option Tensor) : Prop :=
  match p with
  | None => True
  | Some t => numel t = 1
  end.

(** ** Alignment of the parameter lists *)

(** What an operation must satisfy to leave the two parameter lists
    aligned: only the two list setters can break it. *)
Definition keeps_lists_aligned (net : FFNN) (op : operation) : Prop :=
  match op with
  | SetWeights ws => length ws = S (length (biases net))
  | SetBiases bs => length (weights net) = S (length bs)
  | _ => True
  end.

(** ** [backward]

    The method is a stub: it computes a local value and returns
    nothing.  What a caller can observe is whether it raises. *)

Inductive backward_error :=
| SizeIndexError        (* x.size()[0] on a tensor without axes *)
| ZeroDivisionError     (* 1 / batch_size on an empty batch *)
| TensorError (e : error).

Inductive outcome (A : Type) :=
| Returns (a : A)
| Raises (e : backward_error).

Arguments Returns {A} a.
Arguments Raises {A} e.

(** [a - b] *)
Definition sub (a b : Tensor) : result Tensor :=
  s <- broadcast_shapes (shape a) (shape b) ;;
  Ok (mkTensor s
        (fun idx => (entry a (operand_index (shape a) idx)
                     - entry b (operand_index (shape b) idx))%R)).

(** [c * t] for a Python float [c] *)
Definition scale (c : R) (t : Tensor) : Tensor :=
  mkTensor (shape t) (fun idx => (c * entry t idx)%R).

(** The local [out_layer_loss] of [backward]. *)
Definition out_layer_loss (net : FFNN) (x y y_pred : Tensor) : outcome Tensor :=
  let it := (Z.of_nat (size net) - 1)%Z in
  match shape x with
  | [] => Raises SizeIndexError
  | batch_size :: _ =>
      if batch_size =? 0 then Raises ZeroDivisionError
      else
        match sub y_pred y with
        | Ok d => Returns (scale (1 / INR batch_size) d)
        | Error e => Raises (TensorError e)
        end
  end.

(** [FFNN.backward] *)
Definition backward (net : FFNN) (x y y_pred : Tensor) : outcome unit :=
  match out_layer_loss net x y y_pred with
  | Returns _ => Returns tt
  | Raises e => Raises e
  end.

(** ** The printers

    What [print_weights] and [print_biases] write, line by line.
    [print_activation_functions] prints the [__name__] of each
    activation, which a function of this model does not carry. *)

Module Printing.
Import String Ascii.
Local Open Scope string_scope.

(** [str(n)] for a non-negative [int] *)
Definition str_of_nat (n : nat) : string :=
  DecimalString.NilZero.string_of_uint (Nat.to_uint n).

(** [str(t.size())] *)
Definition size_repr (s : list nat) : string :=
  "torch.Size([" ++ concat ", " (map str_of_nat s) ++ "])".

Definition tab : string := String (ascii_of_nat 9) EmptyString.

(** The f-string of the two loops *)
Definition layer_line (layer : nat) (s : list nat) : string :=
  tab ++ "Layer " ++ str_of_nat layer ++ ": " ++ size_repr s.

Definition enumerate {A : Type} (l : list A) : list (nat * A) :=
  combine (seq 0 (List.length l)) l.

(** [FFNN.print_weights] *)
Definition print_weights (net : FFNN) : list string :=
  "Weights:"
  :: map (fun '(layer, weight) => layer_line layer (shape weight))
         (enumerate (weights net)).

(** [FFNN.print_biases] *)
Definition print_biases (net : FFNN) : list string :=
  "Biases:"
  :: map (fun '(layer, bias) => layer_line layer (shape bias))
         (enumerate (biases net)).

End Printing.

(** ** Sequences of operations *)

Definition run_operations (net : FFNN) (ops : list operation) : FFNN :=
  fold_left state_after ops net.

(** An activation whose failures are its own exceptions, not the
    tensor library's or the container's. *)
Definition raises_only_its_own (f : ActivationFunction) : Prop :=
  forall t p e, f t p = Error e -> exists code, e = Raised code.

Definition item_bias (l : Tensor * Tensor * ActivationFunction * option Tensor) :=
  let '(_, b, _, _) := l in b.

(** A bias as construction makes it: a vector. *)
Definition is_vector (t : Tensor) : Prop := length (shape t) = 1.

(** ** Concrete networks *)

(** A generator that yields 0 everywhere, and the all-zero tensor of a
    given shape. *)
Definition zero_rng : nat -> list nat -> R := fun _ _ => 0%R.

Definition zeros_of (s : list nat) : Tensor := mkTensor s (fun _ => 0%R).

(** [FFNN(300, [50, 30], [relu, sig], [None, None], 10)] *)
Definition net_300_50_30_10 : FFNN :=
  mkFFNN 2
    [mkTensor [300; 50] (zero_rng 0); mkTensor [50; 30] (zero_rng 1);
     mkTensor [30; 10] (zero_rng 2)]
    [zeros_of [50]; zeros_of [30]]
    [relu; sig] [None; None].

(** [FFNN(2, [2], [relu], [None], 2)] *)
Definition net_2_2_2 : FFNN :=
  mkFFNN 1
    [mkTensor [2; 2] (zero_rng 0); mkTensor [2; 2] (zero_rng 1)]
    [zeros_of [2]]
    [relu] [None].

(** [FFNN(3, [], [], [], 2)] *)
Definition net_3_2 : FFNN :=
  mkFFNN 0 [mkTensor [3; 2] (zero_rng 0)] [] [] [].

(** [FFNN(2, [2, 2], [], [], 2)], a construction the class accepts. *)
Definition net_2_2_2_2_bare : FFNN :=
  mkFFNN 0
    [mkTensor [2; 2] (zero_rng 0); mkTensor [2; 2] (zero_rng 1);
     mkTensor [2; 2] (zero_rng 2)]
    [zeros_of [2]; zeros_of [2]]
    [] [].

(** A generator that yields 1/2 everywhere, and the tensor of a given
    shape with every entry 1. *)
Definition half_rng : nat -> list nat -> R := fun _ _ => (1 / 2)%R.

Definition ones_of (s : list nat) : Tensor := mkTensor s (fun _ => 1%R).

(** [FFNN(2, [2, 2], [relu, sig], [None, None], 2)]: the loop makes one
    pass and [forward] returns. *)
Definition net_2_2_2_2 : FFNN :=
  mkFFNN 2
    [mkTensor [2; 2] (half_rng 0); mkTensor [2; 2] (half_rng 1);
     mkTensor [2; 2] (half_rng 2)]
    [zeros_of [2]; zeros_of [2]]
    [relu; sig] [None; None].

(** [FFNN(2, [1], [relu], [None], 2)] *)
Definition net_2_1_2 : FFNN :=
  mkFFNN 1
    [mkTensor [2; 1] (half_rng 0); mkTensor [1; 2] (half_rng 1)]
    [zeros_of [1]]
    [relu] [None].

(** * Properties *)

(** ** The tensor operations on small inputs *)

Example broadcast_matrix_row : broadcast_shapes [4; 3] [3] = Ok [4; 3].
Proof. reflexivity. Qed.

Example broadcast_matrix_scalar_row : broadcast_shapes [4; 3] [1] = Ok [4; 3].
Proof. reflexivity. Qed.

Example broadcast_column_row : broadcast_shapes [4; 1] [3] = Ok [4; 3].
Proof. reflexivity. Qed.

Example broadcast_refused :
  broadcast_shapes [1; 10] [30] = Error (RuntimeError NotBroadcastable).
Proof. reflexivity. Qed.

Example operand_index_row : operand_index [3] [2; 1] = [1].
Proof. reflexivity. Qed.

Example operand_index_single : operand_index [1] [2; 1] = [0].
Proof. reflexivity. Qed.

Example mm_refused :
  mm (zeros_of [1; 50]) (zeros_of [30; 10]) = Error (RuntimeError MmMismatch).
Proof. reflexivity. Qed.

Example mm_vector_refused :
  mm (zeros_of [50]) (zeros_of [50; 10]) = Error (RuntimeError MmNotMatrix).
Proof. reflexivity. Qed.

Example mm_entry :
  let a := mkTensor [1; 2] (fun idx => match idx with [_; 0] => 1 | _ => 2 end)%R in
  let b := mkTensor [2; 1] (fun idx => match idx with [0; _] => 3 | _ => 4 end)%R in
  exists m, mm a b = Ok m /\ shape m = [1; 1] /\ entry m [0; 0] = 11%R.
Proof. eexists. repeat split. simpl. lra. Qed.

Example add_bias_entry :
  let m := mkTensor [2; 2] (fun idx => match idx with [1; 1] => 5 | _ => 0 end)%R in
  let b := mkTensor [2] (fun idx => match idx with [1] => 7 | _ => 1 end)%R in
  exists s, add m b = Ok s /\ shape s = [2; 2]
            /\ entry s [1; 1] = 12%R /\ entry s [0; 0] = 1%R.
Proof. eexists. repeat split; simpl; lra. Qed.

Example softmax_of_zeros :
  exists t, softmax (zeros_of [1; 2]) 1 = Ok t
            /\ entry t [0; 0] = (1 / 2)%R /\ entry t [0; 1] = (1 / 2)%R.
Proof. eexists. repeat split; simpl; rewrite exp_0; lra. Qed.

Example softmax_of_vector_refused :
  softmax (zeros_of [3]) 1 = Error (RuntimeError DimOutOfRange).
Proof. reflexivity. Qed.

Example item_of_matrix_refused :
  item (zeros_of [2; 2]) = Error (RuntimeError ItemNotScalar).
Proof. reflexivity. Qed.

Example init_negative_width :
  init zero_rng 3 [-1]%Z [relu] [None] 2 = Error (RuntimeError NegativeDimension).
Proof. reflexivity. Qed.

(** ** Generic facts about the error monad and the list helpers *)

Lemma bind_ok {A B : Type} (c : result A) (k : A -> result B) (b : B) :
  bind c k = Ok b -> exists a, c = Ok a /\ k a = Ok b.
Proof.
  destruct c as [a | e]; simpl; intros H; [eauto | discriminate].
Qed.

Section MapM.
Variables A B : Type.
Variable f : A -> result B.

Lemma mapM_ok (l : list A) (l' : list B) :
  mapM f l = Ok l' -> Forall2 (fun a b => f a = Ok b) l l'.
Proof using Type.
  revert l'; induction l as [| a l IH]; simpl; intros l' H.
  - injection H as <-. constructor.
  - apply bind_ok in H as (b & Hb & H).
    apply bind_ok in H as (bs & Hbs & H).
    injection H as <-. constructor; auto.
Qed.
End MapM.

Lemma Forall2_at {A B : Type} {P : A -> B -> Prop} {l : list A} {l' : list B} :
  Forall2 P l l' ->
  forall k a, nth_error l k = Some a -> exists b, nth_error l' k = Some b /\ P a b.
Proof.
  induction 1 as [| x y l l' Hxy _ IH]; intros k a Hk.
  - destruct k; discriminate.
  - destruct k as [| k]; simpl in *.
    + injection Hk as <-. eauto.
    + eauto.
Qed.

Lemma Forall2_same_length {A B : Type} {P : A -> B -> Prop} {l : list A} {l' : list B} :
  Forall2 P l l' -> length l' = length l.
Proof. induction 1; simpl; congruence. Qed.

(** ** Construction *)

Section Construction.
Variable rng : nat -> list nat -> R.
Variables size_in size_out : Z.
Variable hidden_sizes : list Z.
Variable activations : list ActivationFunction.
Variable parameters : list (option Tensor).
Variable net : FFNN.
Hypothesis built :
  init rng size_in hidden_sizes activations parameters size_out = Ok net.

Let neurons := neurons_of size_in hidden_sizes size_out.

Lemma init_output_size : (2 <= size_out)%Z.
Proof using built.
  unfold init in built.
  destruct (size_out <? 2)%Z eqn:E; [discriminate |].
  apply Z.ltb_ge in E. exact E.
Qed.

Lemma init_fields :
  Forall2 (fun i w => torch_rand (rng i) (nth i neurons 0%Z) (nth (i + 1) neurons 0%Z) = Ok w)
          (seq 0 (length neurons - 1)) (weights net)
  /\ Forall2 (fun h b => torch_zeros h = Ok b) hidden_sizes (biases net)
  /\ activation_functions net = activations
  /\ function_parameters net = parameters
  /\ size net = length activations.
Proof using built.
  unfold init in built.
  destruct (size_out <? 2)%Z; [discriminate |].
  apply bind_ok in built as (ws & Hws & H).
  apply bind_ok in H as (bs & Hbs & H).
  injection H as <-. simpl.
  repeat split; auto using mapM_ok.
Qed.

Lemma neurons_length : length neurons = S (S (length hidden_sizes)).
Proof using Type.
  unfold neurons, neurons_of. rewrite !length_app. simpl. lia.
Qed.

Lemma init_weights_length : length (weights net) = S (length hidden_sizes).
Proof using built.
  destruct init_fields as (Hw & _).
  apply Forall2_same_length in Hw. rewrite Hw, length_seq, neurons_length. lia.
Qed.

Lemma init_biases_length : length (biases net) = length hidden_sizes.
Proof using built.
  destruct init_fields as (_ & Hb & _).
  apply Forall2_same_length in Hb. exact Hb.
Qed.

Lemma init_weight_at (k : nat) :
  k < S (length hidden_sizes) ->
  exists w, nth_error (weights net) k = Some w
            /\ shape w = [Z.to_nat (nth k neurons 0%Z); Z.to_nat (nth (S k) neurons 0%Z)]
            /\ (0 <= nth k neurons 0)%Z /\ (0 <= nth (S k) neurons 0)%Z.
Proof using built.
  intros Hk. destruct init_fields as (Hw & _).
  assert (Hs : nth_error (seq 0 (length neurons - 1)) k = Some k).
  { rewrite nth_error_seq, neurons_length.
    destruct (Nat.ltb_spec k (S (S (length hidden_sizes)) - 1)); [reflexivity | lia]. }
  destruct (Forall2_at Hw _ _ Hs) as (w & Hkw & Hr).
  exists w. split; [exact Hkw |].
  unfold torch_rand in Hr. replace (k + 1) with (S k) in Hr by lia.
  destruct (_ || _)%bool eqn:E; [discriminate |].
  apply orb_false_elim in E as (E1 & E2).
  apply Z.ltb_ge in E1, E2.
  injection Hr as <-. simpl. auto.
Qed.

Lemma init_bias_at (k : nat) (h : Z) :
  nth_error hidden_sizes k = Some h ->
  exists b, nth_error (biases net) k = Some b
            /\ shape b = [Z.to_nat h] /\ (0 <= h)%Z
            /\ entry b = (fun _ => 0%R).
Proof using built.
  intros Hk. destruct init_fields as (_ & Hb & _).
  destruct (Forall2_at Hb _ _ Hk) as (b & Hkb & Hz).
  exists b. split; [exact Hkb |].
  unfold torch_zeros in Hz.
  destruct (h <? 0)%Z eqn:E; [discriminate |].
  apply Z.ltb_ge in E. injection Hz as <-. simpl. auto.
Qed.
End Construction.

(** ** Shapes *)

Lemma mm_result_shape (a b : Tensor) :
  result_shape (mm a b) = mm_shape (shape a) (shape b).
Proof.
  unfold mm, mm_shape.
  destruct (shape a) as [| n [| m [| ? ?]]]; try reflexivity.
  destruct (shape b) as [| m' [| p [| ? ?]]]; try reflexivity.
  destruct (m =? m'); reflexivity.
Qed.

Lemma add_result_shape (a b : Tensor) :
  result_shape (add a b) = broadcast_shapes (shape a) (shape b).
Proof.
  unfold add. destruct (broadcast_shapes (shape a) (shape b)); reflexivity.
Qed.

Lemma softmax_result_shape (t : Tensor) (dim : nat) :
  result_shape (softmax t dim) = softmax_shape (shape t) dim.
Proof.
  unfold softmax, softmax_shape. destruct (nth_error (shape t) dim); reflexivity.
Qed.

Lemma result_shape_bind (c : result Tensor) (k : Tensor -> result Tensor)
    (k' : list nat -> result (list nat)) :
  (forall t, result_shape (k t) = k' (shape t)) ->
  result_shape (t <- c ;; k t) = (s <- result_shape c ;; k' s).
Proof.
  intros Hk. destruct c as [t | e]; simpl; [apply Hk | reflexivity].
Qed.

Lemma elementwise_shape_preserving (g : R -> R) : shape_preserving (elementwise g).
Proof. intros t p. eexists; split; reflexivity. Qed.

Lemma shape_preserving_result (f : ActivationFunction) (t : Tensor) (p : option R) :
  shape_preserving f -> result_shape (f t p) = Ok (shape t).
Proof.
  intros Hf. destruct (Hf t p) as (t' & -> & Hs). simpl. now rewrite Hs.
Qed.

Lemma layer_step_shape (out : Tensor) l :
  shape_preserving (item_activation l) ->
  result_shape (layer_step out l) = step_shape (shape out) (item_shapes l).
Proof.
  destruct l as [[[w b] f] params]; simpl; intros Hf.
  destruct params as [p |].
  - rewrite result_shape_bind with
      (k' := fun m => s' <- broadcast_shapes m (shape b) ;; _ <- item p ;; Ok s').
    + now rewrite mm_result_shape.
    + intros m. rewrite result_shape_bind with (k' := fun s' => _ <- item p ;; Ok s').
      * now rewrite add_result_shape.
      * intros s. destruct (item p) as [v | e]; simpl; [| reflexivity].
        now apply shape_preserving_result.
  - rewrite result_shape_bind with (k' := fun m => broadcast_shapes m (shape b)).
    + now rewrite mm_result_shape.
    + intros m. rewrite result_shape_bind with (k' := fun s' => Ok s').
      * rewrite add_result_shape. destruct (broadcast_shapes _ _); reflexivity.
      * intros s. now apply shape_preserving_result.
Qed.

Lemma run_layers_shape ls :
  Forall (fun l => shape_preserving (item_activation l)) ls ->
  forall out,
    result_shape (run_layers ls out) = layers_shape (map item_shapes ls) (shape out).
Proof.
  induction 1 as [| l ls Hl _ IH]; intros out; simpl; [reflexivity |].
  rewrite result_shape_bind with (k' := layers_shape (map item_shapes ls)).
  - now rewrite layer_step_shape.
  - exact IH.
Qed.

Section Zip4.
Variables (bs : list Tensor) (ps : list (option Tensor)).

Lemma zip4_activations (P : ActivationFunction -> Prop) ws fs :
  Forall P fs ->
  Forall (fun l => P (item_activation l)) (zip4 ws bs fs ps).
Proof using Type.
  intros Hfs. revert ws bs ps.
  induction Hfs as [| f fs Hf _ IH]; intros ws bs' ps'.
  - destruct ws, bs', ps'; constructor.
  - destruct ws, bs', ps'; simpl; constructor; auto.
Qed.

Lemma zip4_weight_shapes ws ws' fs :
  map shape ws = map shape ws' ->
  map item_shapes (zip4 ws bs fs ps) = map item_shapes (zip4 ws' bs fs ps).
Proof using Type.
  revert ws' fs bs ps.
  induction ws as [| w ws IH]; intros [| w' ws'] fs bs' ps' H; try discriminate.
  - reflexivity.
  - simpl in H. injection H as Hw Hws.
    destruct bs', fs, ps'; simpl; try reflexivity.
    rewrite Hw. f_equal. now apply IH.
Qed.
End Zip4.

Lemma removelast_map {A B : Type} (f : A -> B) (l : list A) :
  map f (removelast l) = removelast (map f l).
Proof.
  induction l as [| a [| a' l] IH]; simpl in *; try reflexivity.
  now rewrite IH.
Qed.

Lemma last_item_shapes (which : param_list) (l l' : list Tensor) :
  map shape l = map shape l' ->
  result_shape (last_item which l) = result_shape (last_item which l').
Proof.
  revert l'. induction l as [| t l IH]; intros [| t' l'] H; try discriminate.
  - reflexivity.
  - simpl in H. injection H as Ht Hl.
    destruct l as [| u l], l' as [| u' l']; try discriminate.
    + simpl. now rewrite Ht.
    + apply (IH (u' :: l')). exact Hl.
Qed.

Lemma last_item_app (which : param_list) (l : list Tensor) (t : Tensor) :
  last_item which (l ++ [t]) = Ok t.
Proof.
  induction l as [| a l IH]; [reflexivity |].
  simpl. destruct (l ++ [t]) eqn:E; [destruct l; discriminate | exact IH].
Qed.

Lemma last_item_nth (which : param_list) (l : list Tensor) (t : Tensor) :
  nth_error l (length l - 1) = Some t -> last_item which l = Ok t.
Proof.
  destruct l as [| a l] using rev_ind; [discriminate |].
  rewrite length_app, nth_error_app2; simpl; [| lia].
  replace (length l + 1 - 1 - length l) with 0 by lia. simpl.
  intros [= ->]. apply last_item_app.
Qed.

Lemma forward_result_shape (net : FFNN) (x : Tensor) :
  Forall shape_preserving (activation_functions net) ->
  result_shape (forward net x) = forward_shape net (shape x).
Proof.
  intros Hf. unfold forward, forward_shape.
  rewrite <- run_layers_shape by (apply zip4_activations; exact Hf).
  destruct (run_layers (loop_items net) x) as [out | e]; simpl; [| reflexivity].
  destruct (last_item Weights (weights net)) as [w | e]; simpl; [| reflexivity].
  rewrite <- mm_result_shape.
  destruct (mm out w) as [m | e]; simpl; [| reflexivity].
  destruct (last_item Biases (biases net)) as [b | e]; simpl; [| reflexivity].
  rewrite <- add_result_shape.
  destruct (add m b) as [s | e]; simpl; [| reflexivity].
  apply softmax_result_shape.
Qed.

(** ** The last step of [forward] *)

Lemma forward_ok_steps (net : FFNN) (x t : Tensor) :
  forward net x = Ok t ->
  exists out w m b s,
    run_layers (loop_items net) x = Ok out
    /\ last_item Weights (weights net) = Ok w
    /\ mm out w = Ok m
    /\ last_item Biases (biases net) = Ok b
    /\ add m b = Ok s
    /\ softmax s 1 = Ok t.
Proof.
  unfold forward. intros H.
  apply bind_ok in H as (out & Hout & H).
  apply bind_ok in H as (w & Hw & H).
  apply bind_ok in H as (m & Hm & H).
  apply bind_ok in H as (b & Hb & H).
  apply bind_ok in H as (s & Hs & H).
  exists out, w, m, b, s. auto 10.
Qed.

Lemma mm_ok_shape (a b m : Tensor) :
  mm a b = Ok m ->
  exists n k p, shape a = [n; k] /\ shape b = [k; p] /\ shape m = [n; p].
Proof.
  intros H. pose proof (mm_result_shape a b) as Hs.
  rewrite H in Hs. simpl in Hs. unfold mm_shape in Hs.
  destruct (shape a) as [| n [| k [| ? ?]]]; try discriminate.
  destruct (shape b) as [| k' [| p [| ? ?]]]; try discriminate.
  destruct (Nat.eqb_spec k k'); [| discriminate].
  subst k'. injection Hs as Hs. exists n, k, p. auto.
Qed.

(** A matrix of at least two columns plus a vector: when the sum is
    defined it has the shape of the matrix. *)
Lemma broadcast_matrix_vector (n c d : nat) (s : list nat) :
  2 <= c -> broadcast_shapes [n; c] [d] = Ok s -> s = [n; c] /\ (d = c \/ d = 1).
Proof.
  intros Hc. unfold broadcast_shapes. simpl.
  destruct (Nat.eqb_spec c d) as [-> | Hcd]; simpl.
  - intros [= <-]. auto.
  - destruct (Nat.eqb_spec c 1); [lia |].
    destruct (Nat.eqb_spec d 1) as [-> | Hd]; simpl; [| discriminate].
    intros [= <-]. auto.
Qed.

Lemma add_ok_matrix_vector (m b s : Tensor) (n c d : nat) :
  shape m = [n; c] -> shape b = [d] -> 2 <= c ->
  add m b = Ok s -> shape s = [n; c] /\ (d = c \/ d = 1).
Proof.
  intros Hm Hb Hc H. pose proof (add_result_shape m b) as Hs.
  rewrite H, Hm, Hb in Hs. simpl in Hs.
  symmetry in Hs. now apply broadcast_matrix_vector in Hs.
Qed.

(** ** Softmax over the reals *)

Section Softmax.
Local Open Scope R_scope.

Lemma sum_upto_scale (f : nat -> R) (d : R) (n : nat) :
  sum_upto (fun j => f j / d) n = sum_upto f n / d.
Proof using Type.
  induction n as [| n IH]; simpl.
  - unfold Rdiv. now rewrite Rmult_0_l.
  - rewrite IH. unfold Rdiv. now rewrite Rmult_plus_distr_r.
Qed.

Lemma sum_upto_exp_pos (g : nat -> R) (n : nat) :
  (0 < n)%nat -> 0 < sum_upto (fun k => exp (g k)) n.
Proof using Type.
  intros Hn. destruct n as [| n]; [lia |]. clear Hn.
  induction n as [| n IH]; simpl in *.
  - rewrite Rplus_0_l. apply exp_pos.
  - pose proof (exp_pos (g (S n))). lra.
Qed.

(** On a matrix with at least one column, every row of the softmax
    along axis 1 is a probability distribution. *)
Lemma softmax_rows (s t : Tensor) (r c : nat) :
  softmax s 1 = Ok t -> shape s = [r; c] -> (0 < c)%nat ->
  shape t = [r; c]
  /\ forall i,
      (forall j, 0 <= entry t [i; j])
      /\ sum_upto (fun j => entry t [i; j]) c = 1.
Proof using Type.
  unfold softmax. intros H Hs Hc. rewrite Hs in H. simpl in H.
  injection H as <-. simpl. split; [reflexivity |]. intros i.
  pose proof (sum_upto_exp_pos (fun k => entry s [i; k]) c Hc) as Hpos.
  split.
  - intros j. apply Rlt_le. apply Rdiv_lt_0_compat; [apply exp_pos | exact Hpos].
  - rewrite sum_upto_scale with (f := fun j => exp (entry s [i; j])).
    apply Rinv_r. lra.
Qed.
End Softmax.

(** ** The last weight matrix and the last bias of a constructed network *)

Lemma last_default {A : Type} (a : A) (l : list A) (d d' : A) :
  last (a :: l) d = last (a :: l) d'.
Proof.
  revert a. induction l as [| a' l IH]; intros a; [reflexivity |].
  change (last (a' :: l) d = last (a' :: l) d'). apply IH.
Qed.

Lemma neurons_before_last (size_in : Z) (hidden_sizes : list Z) (size_out : Z) :
  nth (length hidden_sizes) (neurons_of size_in hidden_sizes size_out) 0%Z
  = last hidden_sizes size_in.
Proof.
  unfold neurons_of.
  change (nth (length hidden_sizes) (size_in :: hidden_sizes ++ [size_out]) 0%Z
          = last hidden_sizes size_in).
  revert size_in.
  induction hidden_sizes as [| h hs IH]; intros size_in; [reflexivity |].
  change (nth (length hs) (h :: hs ++ [size_out]) 0%Z = last (h :: hs) size_in).
  rewrite (IH h). destruct hs as [| h' hs]; [reflexivity |].
  change (last (h' :: hs) h = last (h' :: hs) size_in). apply last_default.
Qed.

Lemma neurons_last (size_in : Z) (hidden_sizes : list Z) (size_out : Z) :
  nth (S (length hidden_sizes)) (neurons_of size_in hidden_sizes size_out) 0%Z
  = size_out.
Proof.
  unfold neurons_of.
  change (nth (length hidden_sizes) (hidden_sizes ++ [size_out]) 0%Z = size_out).
  apply nth_middle.
Qed.

Section LastLayer.
Variable rng : nat -> list nat -> R.
Variables size_in size_out : Z.
Variable hidden_sizes : list Z.
Variable activations : list ActivationFunction.
Variable parameters : list (option Tensor).
Variable net : FFNN.
Hypothesis built :
  init rng size_in hidden_sizes activations parameters size_out = Ok net.

Lemma init_last_weight :
  exists w, last_item Weights (weights net) = Ok w
            /\ shape w = [Z.to_nat (last hidden_sizes size_in); Z.to_nat size_out].
Proof using built.
  destruct (init_weight_at _ _ _ _ _ _ _ built (length hidden_sizes)) as (w & Hw & Hs & _);
    [lia |].
  exists w. split.
  - apply last_item_nth. rewrite (init_weights_length _ _ _ _ _ _ _ built).
    now replace (S (length hidden_sizes) - 1) with (length hidden_sizes) by lia.
  - now rewrite Hs, neurons_before_last, neurons_last.
Qed.

Lemma init_last_bias :
  hidden_sizes <> [] ->
  exists b, last_item Biases (biases net) = Ok b
            /\ shape b = [Z.to_nat (last hidden_sizes 0%Z)]
            /\ entry b = (fun _ => 0%R).
Proof using built.
  intros Hne.
  destruct (exists_last Hne) as (hs & h & E).
  assert (Hk : nth_error hidden_sizes (length hidden_sizes - 1) = Some h).
  { rewrite E, length_app, nth_error_app2; simpl; [| lia].
    now replace (length hs + 1 - 1 - length hs) with 0 by lia. }
  destruct (init_bias_at _ _ _ _ _ _ _ built _ _ Hk) as (b & Hb & Hs & _ & Hz).
  exists b. repeat split; [| | exact Hz].
  - apply last_item_nth. now rewrite (init_biases_length _ _ _ _ _ _ _ built).
  - now rewrite Hs, E, last_last.
Qed.

Lemma init_no_hidden_no_bias :
  hidden_sizes = [] -> biases net = [].
Proof using built.
  intros E. pose proof (init_biases_length _ _ _ _ _ _ _ built) as H.
  rewrite E in H. now apply length_zero_iff_nil.
Qed.
End LastLayer.

Lemma net_300_50_30_10_built :
  init zero_rng 300 [50; 30]%Z [relu; sig] [None; None] 10 = Ok net_300_50_30_10.
Proof. reflexivity. Qed.

Lemma net_2_2_2_built :
  init zero_rng 2 [2]%Z [relu] [None] 2 = Ok net_2_2_2.
Proof. reflexivity. Qed.

Lemma net_3_2_built :
  init zero_rng 3 [] [] [] 2 = Ok net_3_2.
Proof. reflexivity. Qed.

(** ** Construction: the assertion, the weights, the biases *)

Lemma mapM_error {A B : Type} (f : A -> result B) (l : list A) (e : error) :
  mapM f l = Error e -> exists a, In a l /\ f a = Error e.
Proof.
  induction l as [| a l IH]; simpl; [discriminate |].
  destruct (f a) as [b | e'] eqn:Ha; simpl.
  - destruct (mapM f l) as [bs | e'']; simpl; [discriminate |].
    intros [= ->]. destruct IH as (a' & Hin & Ha'); eauto.
  - intros [= ->]. eauto.
Qed.

Lemma torch_rand_error gen r c e :
  torch_rand gen r c = Error e -> e = RuntimeError NegativeDimension.
Proof. unfold torch_rand. destruct (_ || _)%bool; congruence. Qed.

Lemma torch_zeros_error n e :
  torch_zeros n = Error e -> e = RuntimeError NegativeDimension.
Proof. unfold torch_zeros. destruct (n <? 0)%Z; congruence. Qed.

(** C4. Construction fails on the assertion exactly when [size_out < 2]:
    with [size_out < 2] it raises [AssertionError], and with
    [size_out >= 2] whatever it does is not that failure. *)
Theorem init_asserts_output_size
    (rng : nat -> list nat -> R) (size_in : Z) (hidden_sizes : list Z)
    (activations : list ActivationFunction) (parameters : list (option Tensor))
    (size_out : Z) :
  init rng size_in hidden_sizes activations parameters size_out = Error AssertionError
  <-> (size_out < 2)%Z.
Proof.
  unfold init. destruct (Z.ltb_spec size_out 2) as [Hlt | Hge].
  - split; auto.
  - split; [| lia]. intros H. exfalso.
    destruct (mapM _ (seq _ _)) as [ws | e] eqn:Hws; simpl in H.
    + destruct (mapM torch_zeros hidden_sizes) as [bs | e] eqn:Hbs; simpl in H.
      * discriminate.
      * apply mapM_error in Hbs as (h & _ & Hh).
        apply torch_zeros_error in Hh. congruence.
    + apply mapM_error in Hws as (i & _ & Hi).
      apply torch_rand_error in Hi. congruence.
Qed.

(** C5. A constructed network holds [len(hidden_sizes) + 1] weight
    matrices, and the [i]-th has shape [(n_i, n_{i+1})] for
    [n = [size_in] + hidden_sizes + [size_out]]. *)
Theorem weights_follow_layer_sizes
    (rng : nat -> list nat -> R) (size_in : Z) (hidden_sizes : list Z)
    (activations : list ActivationFunction) (parameters : list (option Tensor))
    (size_out : Z) (net : FFNN) :
  init rng size_in hidden_sizes activations parameters size_out = Ok net ->
  length (weights net) = length hidden_sizes + 1
  /\ forall i, i < length hidden_sizes + 1 ->
       exists w, nth_error (weights net) i = Some w
                 /\ map Z.of_nat (shape w)
                    = [nth i (size_in :: hidden_sizes ++ [size_out]) 0%Z;
                       nth (i + 1) (size_in :: hidden_sizes ++ [size_out]) 0%Z].
Proof.
  intros built. split.
  - rewrite (init_weights_length _ _ _ _ _ _ _ built). lia.
  - intros i Hi.
    destruct (init_weight_at _ _ _ _ _ _ _ built i) as (w & Hw & Hs & H0 & H1); [lia |].
    exists w. split; [exact Hw |].
    rewrite Hs. simpl map. rewrite !Z2Nat.id by assumption.
    replace (i + 1) with (S i) by lia. reflexivity.
Qed.

Lemma weights_follow_layer_sizes_witness :
  init zero_rng 300 [50; 30]%Z [relu; sig] [None; None] 10 = Ok net_300_50_30_10
  /\ length (weights net_300_50_30_10) = 2 + 1
  /\ forall i, i < 2 + 1 ->
       exists w, nth_error (weights net_300_50_30_10) i = Some w
                 /\ map Z.of_nat (shape w)
                    = [nth i [300; 50; 30; 10]%Z 0%Z; nth (i + 1) [300; 50; 30; 10]%Z 0%Z].
Proof.
  split; [reflexivity |].
  exact (weights_follow_layer_sizes zero_rng 300 [50; 30]%Z [relu; sig] [None; None] 10
           net_300_50_30_10 eq_refl).
Defined.

(** C6. A constructed network holds one bias vector per hidden layer
    and none for the output layer; the [i]-th has shape
    [(hidden_sizes[i],)] and every entry of it is zero. *)
Theorem biases_follow_hidden_sizes
    (rng : nat -> list nat -> R) (size_in : Z) (hidden_sizes : list Z)
    (activations : list ActivationFunction) (parameters : list (option Tensor))
    (size_out : Z) (net : FFNN) :
  init rng size_in hidden_sizes activations parameters size_out = Ok net ->
  length (biases net) = length hidden_sizes
  /\ forall i h, nth_error hidden_sizes i = Some h ->
       exists b, nth_error (biases net) i = Some b
                 /\ map Z.of_nat (shape b) = [h]
                 /\ forall idx, entry b idx = 0%R.
Proof.
  intros built. split.
  - exact (init_biases_length _ _ _ _ _ _ _ built).
  - intros i h Hi.
    destruct (init_bias_at _ _ _ _ _ _ _ built _ _ Hi) as (b & Hb & Hs & H0 & Hz).
    exists b. split; [exact Hb |]. split.
    + rewrite Hs. simpl. now rewrite Z2Nat.id.
    + intros idx. now rewrite Hz.
Qed.

Lemma biases_follow_hidden_sizes_witness :
  init zero_rng 300 [50; 30]%Z [relu; sig] [None; None] 10 = Ok net_300_50_30_10
  /\ length (biases net_300_50_30_10) = 2
  /\ forall i h, nth_error [50; 30]%Z i = Some h ->
       exists b, nth_error (biases net_300_50_30_10) i = Some b
                 /\ map Z.of_nat (shape b) = [h]
                 /\ forall idx, entry b idx = 0%R.
Proof.
  split; [reflexivity |].
  exact (biases_follow_hidden_sizes zero_rng 300 [50; 30]%Z [relu; sig] [None; None] 10
           net_300_50_30_10 eq_refl).
Defined.

(** ** The forward pass *)

(** Whatever tensor [forward] returns for a constructed network is a
    matrix of [size_out] columns, each row of it normalised by the
    softmax. *)
Lemma returned_rows_normalised
    (rng : nat -> list nat -> R) (size_in : Z) (hidden_sizes : list Z)
    (activations : list ActivationFunction) (parameters : list (option Tensor))
    (size_out : Z) (net : FFNN) (x t : Tensor) :
  init rng size_in hidden_sizes activations parameters size_out = Ok net ->
  forward net x = Ok t ->
  exists r,
    shape t = [r; Z.to_nat size_out]
    /\ forall i,
         (forall j, (0 <= entry t [i; j])%R)
         /\ sum_upto (fun j => entry t [i; j]) (Z.to_nat size_out) = 1%R.
Proof.
  intros built Hfwd.
  apply forward_ok_steps in Hfwd as (out & w & m & b & s & _ & Hw & Hm & Hb & Hs & Ht).
  destruct (init_last_weight _ _ _ _ _ _ _ built) as (w' & Hw' & Hsw).
  assert (w' = w) by congruence. subst w'.
  apply mm_ok_shape in Hm as (n & k & p & _ & Hsw' & Hsm).
  rewrite Hsw in Hsw'. injection Hsw' as _ <-.
  pose proof (init_output_size _ _ _ _ _ _ _ built) as Hout.
  assert (Hc : 2 <= Z.to_nat size_out) by lia.
  destruct hidden_sizes as [| h hs].
  { rewrite (init_no_hidden_no_bias _ _ _ _ _ _ _ built eq_refl) in Hb. discriminate. }
  destruct (init_last_bias _ _ _ _ _ _ _ built) as (b' & Hb' & Hsb & _); [discriminate |].
  assert (b' = b) by congruence. subst b'.
  destruct (add_ok_matrix_vector _ _ _ _ _ _ Hsm Hsb Hc Hs) as (Hss & _).
  destruct (softmax_rows _ _ _ _ Ht Hss) as (Hst & Hrows); [lia |].
  exists n. split; [exact Hst | exact Hrows].
Qed.

(** C10. A network constructed without hidden layers holds a single
    weight matrix and no bias, and no call of [forward] on it returns:
    on a batch of [size_in] columns the product with the weight matrix
    is computed and [biases[-1]] then raises [IndexError]. *)
Theorem forward_without_hidden_layers
    (rng : nat -> list nat -> R) (size_in : Z)
    (activations : list ActivationFunction) (parameters : list (option Tensor))
    (size_out : Z) (net : FFNN) :
  init rng size_in [] activations parameters size_out = Ok net ->
  exists w,
    weights net = [w]
    /\ biases net = []
    /\ (forall x, exists e, forward net x = Error e)
    /\ (forall B x, shape x = [B; Z.to_nat size_in] ->
          (exists m, mm x w = Ok m)
          /\ forward net x = Error (IndexError Biases)).
Proof.
  intros built.
  pose proof (init_no_hidden_no_bias _ _ _ _ _ _ _ built eq_refl) as Hb.
  destruct (init_last_weight _ _ _ _ _ _ _ built) as (w & Hw & Hsw). simpl in Hsw.
  pose proof (init_weights_length _ _ _ _ _ _ _ built) as Hlen. simpl in Hlen.
  destruct (weights net) as [| w0 [| ? ?]] eqn:Ews; try discriminate.
  simpl in Hw. injection Hw as ->.
  assert (Hloop : forall x, run_layers (loop_items net) x = Ok x).
  { intros x. unfold loop_items. now rewrite Ews. }
  exists w. split; [reflexivity |]. split; [exact Hb |]. split.
  - intros x. unfold forward. rewrite Hloop, Ews, Hb. simpl.
    destruct (mm x w) as [m | e]; simpl; eauto.
  - intros B x Hx.
    assert (Hm : exists m, mm x w = Ok m).
    { unfold mm. rewrite Hx, Hsw, Nat.eqb_refl. eauto. }
    split; [exact Hm |].
    unfold forward. rewrite Hloop, Ews, Hb. simpl.
    destruct Hm as (m & ->). reflexivity.
Qed.

Lemma forward_without_hidden_layers_witness :
  init zero_rng 3 [] [] [] 2 = Ok net_3_2
  /\ exists w,
      weights net_3_2 = [w]
      /\ biases net_3_2 = []
      /\ (forall x, exists e, forward net_3_2 x = Error e)
      /\ (forall B x, shape x = [B; 3] ->
            (exists m, mm x w = Ok m)
            /\ forward net_3_2 x = Error (IndexError Biases)).
Proof.
  split; [reflexivity |].
  exact (forward_without_hidden_layers zero_rng 3 [] [] 2 net_3_2 eq_refl).
Defined.

(** C8. The loop of [forward] runs over
    [zip(weights[:-1], biases[:-1], activation_functions, function_parameters)]:
    the last element of the bias list is not among the biases it pairs,
    it runs at most [len(biases) - 1] times, and what it computes does
    not depend on that last bias. *)
Theorem loop_drops_last_bias (net : FFNN) (bs : list Tensor) (b : Tensor) :
  biases net = bs ++ [b] ->
  loop_items net
  = zip4 (removelast (weights net)) bs (activation_functions net) (function_parameters net)
  /\ length (loop_items net) <= length (biases net) - 1
  /\ forall b' x,
       run_layers (loop_items (set_biases net (bs ++ [b']))) x
       = run_layers (loop_items net) x.
Proof.
  intros Hb.
  assert (Hitems : forall b0 n, biases n = bs ++ [b0] ->
            loop_items n = zip4 (removelast (weights n)) bs
                                (activation_functions n) (function_parameters n)).
  { intros b0 n Hn. unfold loop_items. now rewrite Hn, removelast_last. }
  split; [now apply Hitems with b |]. split.
  - rewrite (Hitems b net Hb), Hb, length_app. simpl.
    replace (length bs + 1 - 1) with (length bs) by lia.
    generalize (removelast (weights net)) (activation_functions net)
               (function_parameters net).
    clear. induction bs as [| b bs IH]; intros ws fs ps.
    + destruct ws, fs, ps; simpl; lia.
    + destruct ws, fs, ps; simpl; try lia. specialize (IH ws fs ps). lia.
  - intros b' x.
    rewrite (Hitems b' (set_biases net (bs ++ [b'])) eq_refl).
    now rewrite (Hitems b net Hb).
Qed.

Lemma loop_drops_last_bias_witness :
  biases net_300_50_30_10 = [zeros_of [50]] ++ [zeros_of [30]]
  /\ loop_items net_300_50_30_10
     = zip4 (removelast (weights net_300_50_30_10)) [zeros_of [50]]
            (activation_functions net_300_50_30_10)
            (function_parameters net_300_50_30_10)
  /\ length (loop_items net_300_50_30_10) <= length (biases net_300_50_30_10) - 1
  /\ forall b' x,
       run_layers (loop_items (set_biases net_300_50_30_10 ([zeros_of [50]] ++ [b']))) x
       = run_layers (loop_items net_300_50_30_10) x.
Proof.
  split; [reflexivity |].
  exact (loop_drops_last_bias net_300_50_30_10 [zeros_of [50]] (zeros_of [30]) eq_refl).
Defined.

(** ** The setters and the invariant *)

(** C7, as the code has it. Construction establishes
    [len(weights) == len(biases) + 1]; [forward], [backward], the
    getters, the printers and the activation setter leave it as it is;
    the weight and bias setters store the list they are given
    unchecked, and the invariant survives them exactly when that list
    has the matching length. *)
Theorem lists_aligned_maintained :
  (forall rng size_in hidden_sizes activations parameters size_out net,
      init rng size_in hidden_sizes activations parameters size_out = Ok net ->
      lists_aligned net)
  /\ (forall net op,
        lists_aligned (state_after net op) <->
        match op with
        | SetWeights _ | SetBiases _ => keeps_lists_aligned net op
        | _ => lists_aligned net
        end).
Proof.
  split.
  - intros rng size_in hidden_sizes activations parameters size_out net built.
    unfold lists_aligned.
    now rewrite (init_weights_length _ _ _ _ _ _ _ built),
                (init_biases_length _ _ _ _ _ _ _ built).
  - intros net op. destruct op; simpl; reflexivity.
Qed.

(** C7 as stated fails: the weight setter accepts an empty list on a
    constructed, aligned network. *)
Lemma set_weights_breaks_alignment :
  init zero_rng 2 [2]%Z [relu] [None] 2 = Ok net_2_2_2
  /\ lists_aligned net_2_2_2
  /\ ~ lists_aligned (state_after net_2_2_2 (SetWeights [])).
Proof.
  split; [reflexivity |]. split; [reflexivity |].
  unfold lists_aligned. simpl. discriminate.
Qed.

(** With shape-preserving activations, what [forward] does after the
    weight setter (which exception, or the shape of the result) is a
    function of the shapes of the stored matrices and of the input. *)
Lemma set_weights_shape_outcome (net : FFNN) (ws ws' : list Tensor) (x x' : Tensor) :
  Forall shape_preserving (activation_functions net) ->
  map shape ws = map shape ws' ->
  shape x = shape x' ->
  result_shape (forward (set_weights net ws) x)
  = result_shape (forward (set_weights net ws') x').
Proof.
  intros Hf Hws Hx.
  rewrite !forward_result_shape by exact Hf.
  unfold forward_shape, loop_items. simpl.
  rewrite (zip4_weight_shapes (removelast (biases net)) (function_parameters net)
             (removelast ws) (removelast ws'))
    by (rewrite !removelast_map; now f_equal).
  now rewrite (last_item_shapes Weights ws ws' Hws), Hx.
Qed.

Lemma set_weights_same (net : FFNN) : set_weights net (weights net) = net.
Proof. now destruct net. Qed.

(** ** The outcome of [forward] on a constructed network *)

Lemma zip4_item_shapes ws bs fs ps :
  map item_shapes (zip4 ws bs fs ps)
  = zip_shapes (map shape ws) (map shape bs) (length fs) ps.
Proof.
  revert bs fs ps. induction ws as [| w ws IH]; intros bs fs ps; [reflexivity |].
  destruct bs, fs, ps; simpl; try reflexivity. now rewrite IH.
Qed.

Lemma nth_error_layer_shapes (ns : list nat) (i : nat) :
  nth_error (layer_shapes ns) i
  = if S i <? length ns then Some [nth i ns 0; nth (S i) ns 0] else None.
Proof.
  revert i. induction ns as [| a ns IH]; intros i.
  - destruct i; reflexivity.
  - destruct ns as [| b rest].
    + destruct i; reflexivity.
    + destruct i as [| i]; [reflexivity |].
      change (nth_error (layer_shapes (b :: rest)) i
              = if S (S i) <? S (length (b :: rest))
                then Some [nth i (b :: rest) 0; nth (S i) (b :: rest) 0] else None).
      rewrite IH. reflexivity.
Qed.

Lemma layer_shapes_snoc (ns : list nat) (a b : nat) :
  layer_shapes (ns ++ [a; b]) = layer_shapes (ns ++ [a]) ++ [[a; b]].
Proof.
  induction ns as [| n ns IH]; [reflexivity |].
  destruct ns as [| n' ns]; [reflexivity |].
  change (layer_shapes ((n :: n' :: ns) ++ [a; b]))
    with ([n; n'] :: layer_shapes ((n' :: ns) ++ [a; b])).
  change (layer_shapes ((n :: n' :: ns) ++ [a]))
    with ([n; n'] :: layer_shapes ((n' :: ns) ++ [a])).
  now rewrite IH.
Qed.

Lemma torch_zeros_shapes (hs : list Z) (bs : list Tensor) :
  Forall2 (fun h b => torch_zeros h = Ok b) hs bs ->
  map shape bs = map (fun h => [Z.to_nat h]) hs.
Proof.
  induction 1 as [| h b hs bs Hhb _ IH]; [reflexivity |].
  simpl. f_equal; [| exact IH].
  unfold torch_zeros in Hhb. destruct (h <? 0)%Z; [discriminate |].
  now injection Hhb as <-.
Qed.

Section BuiltShapes.
Variable rng : nat -> list nat -> R.
Variables size_in size_out : Z.
Variable hidden_sizes : list Z.
Variable activations : list ActivationFunction.
Variable parameters : list (option Tensor).
Variable net : FFNN.
Hypothesis built :
  init rng size_in hidden_sizes activations parameters size_out = Ok net.

Lemma init_weight_shapes :
  map shape (weights net)
  = layer_shapes (map Z.to_nat (neurons_of size_in hidden_sizes size_out)).
Proof using built.
  apply nth_error_ext. intros i.
  rewrite nth_error_map, nth_error_layer_shapes, length_map, neurons_length.
  destruct (Nat.ltb_spec (S i) (S (S (length hidden_sizes)))) as [Hi | Hi].
  - destruct (init_weight_at _ _ _ _ _ _ _ built i) as (w & -> & Hs & _); [lia |].
    cbn [option_map]. rewrite Hs.
    change 0 with (Z.to_nat 0). now rewrite !map_nth.
  - replace (nth_error (weights net) i) with (@None Tensor); [reflexivity |].
    symmetry. apply nth_error_None.
    rewrite (init_weights_length _ _ _ _ _ _ _ built). lia.
Qed.

Lemma init_bias_shapes :
  map shape (biases net) = map (fun h => [Z.to_nat h]) hidden_sizes.
Proof using built.
  destruct (init_fields _ _ _ _ _ _ _ built) as (_ & Hb & _).
  now apply torch_zeros_shapes.
Qed.
End BuiltShapes.

Lemma last_cons {A : Type} (a : A) (l : list A) (d : A) :
  last (a :: l) d = last l a.
Proof.
  destruct l as [| a' l]; [reflexivity |].
  change (last (a' :: l) d = last (a' :: l) a). apply last_default.
Qed.

Lemma last_of_map {A B : Type} (f : A -> B) (l : list A) (d : A) :
  last (map f l) (f d) = f (last l d).
Proof.
  revert d. induction l as [| a l IH]; intros d; [reflexivity |].
  change (map f (a :: l)) with (f a :: map f l).
  now rewrite !last_cons, IH.
Qed.

Lemma last_Forall {A : Type} (P : A -> Prop) (l : list A) (d : A) :
  Forall P l -> P d -> P (last l d).
Proof.
  intros Hl. revert d. induction Hl as [| a l Ha _ IH]; intros d Hd; [exact Hd |].
  rewrite last_cons. now apply IH.
Qed.

Lemma torch_zeros_nonneg (hs : list Z) (bs : list Tensor) :
  Forall2 (fun h b => torch_zeros h = Ok b) hs bs -> Forall (fun h => (0 <= h)%Z) hs.
Proof.
  induction 1 as [| h b hs bs Hhb _ IH]; constructor; [| exact IH].
  unfold torch_zeros in Hhb. destruct (Z.ltb_spec h 0); [discriminate | assumption].
Qed.

(** The loop over the hidden layers but the last: every product and
    every sum in it is well shaped. *)
Lemma hidden_chain (B : nat) (hs0 : list nat) :
  forall n0 h k ps,
    length hs0 <= k -> length hs0 <= length ps -> Forall param_ok ps ->
    layers_shape
      (zip_shapes (layer_shapes (n0 :: hs0 ++ [h])) (map (fun a => [a]) hs0) k ps)
      [B; n0]
    = Ok [B; last hs0 n0].
Proof.
  induction hs0 as [| a hs0 IH]; intros n0 h k ps Hk Hps Hok; [reflexivity |].
  destruct k as [| k]; [simpl in Hk; lia |].
  destruct ps as [| p ps]; [simpl in Hps; lia |].
  inversion Hok as [| ? ? Hp Hok']; subst.
  change (layer_shapes (n0 :: (a :: hs0) ++ [h]))
    with ([n0; a] :: layer_shapes (a :: hs0 ++ [h])).
  cbn [map zip_shapes layers_shape].
  assert (Hstep : step_shape [B; n0] ([n0; a], [a], p) = Ok [B; a]).
  { unfold step_shape, mm_shape, broadcast_shapes. rewrite Nat.eqb_refl.
    simpl. rewrite Nat.eqb_refl. simpl.
    destruct p as [t |]; [| reflexivity].
    unfold item. simpl in Hp. rewrite Hp. reflexivity. }
  rewrite Hstep. cbn [bind]. rewrite last_cons.
  apply IH; simpl in *; auto; lia.
Qed.

(** What [forward] does on a network constructed with at least one
    hidden layer, for shape-preserving activations and well-formed
    parameters, on a batch of [size_in] columns: it returns only when
    the last hidden width equals the width before it (the input width
    when there is one hidden layer), and equals [size_out] or 1. *)
Lemma forward_outcome_on_built
    (rng : nat -> list nat -> R) (size_in : Z) (hs0 : list Z) (h : Z)
    (activations : list ActivationFunction) (parameters : list (option Tensor))
    (size_out : Z) (net : FFNN) (B : nat) (x : Tensor) :
  init rng size_in (hs0 ++ [h]) activations parameters size_out = Ok net ->
  length hs0 <= length activations ->
  length hs0 <= length parameters ->
  Forall shape_preserving activations ->
  Forall param_ok parameters ->
  shape x = [B; Z.to_nat size_in] ->
  result_shape (forward net x)
  = if (last hs0 size_in =? h)%Z then
      if ((h =? size_out) || (h =? 1))%Z then Ok [B; Z.to_nat size_out]
      else Error (RuntimeError NotBroadcastable)
    else Error (RuntimeError MmMismatch).
Proof.
  intros built Ha Hp Hf Hok Hx.
  destruct (init_fields _ _ _ _ _ _ _ built) as (_ & Hzeros & Hfs & Hps & _).
  pose proof (init_output_size _ _ _ _ _ _ _ built) as Hout.
  apply torch_zeros_nonneg in Hzeros.
  apply Forall_app in Hzeros as (Hhs0 & Hh). apply Forall_inv in Hh.
  destruct (init_weight_at _ _ _ _ _ _ _ built 0) as (_ & _ & _ & Hin & _);
    [simpl; lia |].
  change (nth 0 (neurons_of size_in (hs0 ++ [h]) size_out) 0%Z) with size_in in Hin.
  assert (Hprev : (0 <= last hs0 size_in)%Z) by (now apply last_Forall).
  rewrite forward_result_shape by (now rewrite Hfs).
  unfold forward_shape, loop_items.
  rewrite zip4_item_shapes, !removelast_map.
  rewrite (init_weight_shapes _ _ _ _ _ _ _ built), (init_bias_shapes _ _ _ _ _ _ _ built).
  rewrite Hfs, Hps.
  replace (map Z.to_nat (neurons_of size_in (hs0 ++ [h]) size_out))
    with ((Z.to_nat size_in :: map Z.to_nat hs0) ++ [Z.to_nat h; Z.to_nat size_out]).
  2:{ unfold neurons_of. simpl. rewrite <- app_assoc, map_app. reflexivity. }
  rewrite layer_shapes_snoc, removelast_last.
  rewrite map_app. simpl map. rewrite removelast_last.
  replace (map (fun a => [Z.to_nat a]) hs0)
    with (map (fun a => [a]) (map Z.to_nat hs0)) by (now rewrite map_map).
  change ((Z.to_nat size_in :: map Z.to_nat hs0) ++ [Z.to_nat h])
    with (Z.to_nat size_in :: map Z.to_nat hs0 ++ [Z.to_nat h]).
  rewrite Hx, hidden_chain by (rewrite ?length_map; assumption).
  rewrite last_of_map. cbn [bind].
  destruct (init_last_weight _ _ _ _ _ _ _ built) as (w & -> & Hsw).
  destruct (init_last_bias _ _ _ _ _ _ _ built) as (b & -> & Hsb & _);
    [now destruct hs0 |].
  rewrite last_last in Hsw, Hsb. cbn [result_shape bind]. rewrite Hsw, Hsb.
  unfold mm_shape.
  destruct (Z.eqb_spec (last hs0 size_in) h) as [-> | Hne].
  - rewrite Nat.eqb_refl. cbn [bind]. unfold broadcast_shapes. simpl.
    destruct (Z.eqb_spec h size_out) as [-> | Hho].
    + rewrite Nat.eqb_refl. reflexivity.
    + destruct (Nat.eqb_spec (Z.to_nat size_out) (Z.to_nat h)); [lia |].
      destruct (Nat.eqb_spec (Z.to_nat size_out) 1); [lia |].
      destruct (Z.eqb_spec h 1) as [-> | Hh1]; [reflexivity |].
      destruct (Nat.eqb_spec (Z.to_nat h) 1); [lia | reflexivity].
  - destruct (Nat.eqb_spec (Z.to_nat (last hs0 size_in)) (Z.to_nat h)); [lia | reflexivity].
Qed.

(** ** The forward pass against its description *)

Lemma zip4_length {A B C D : Type} (la : list A) (lb : list B) (lc : list C) (ld : list D) :
  length (zip4 la lb lc ld)
  = Nat.min (Nat.min (length la) (length lb)) (Nat.min (length lc) (length ld)).
Proof.
  revert lb lc ld. induction la as [| a la IH]; intros lb lc ld; [reflexivity |].
  destruct lb, lc, ld; simpl; try lia. rewrite IH. lia.
Qed.

Lemma length_removelast {A : Type} (l : list A) :
  length (removelast l) = length l - 1.
Proof.
  induction l as [| a [| a' l] IH]; simpl in *; lia.
Qed.

(** C1 fails on the code. For a network constructed with one
    activation and one parameter per hidden layer, the loop of
    [forward] applies [len(hidden_sizes) - 1] transitions where the
    description applies [len(hidden_sizes)]; and on
    [FFNN(3, [2], [relu], [None], 2)] with a (1, 3) batch [forward]
    raises in [torch.mm] where the described pass returns a (1, 2)
    tensor. *)
Theorem forward_skips_a_hidden_transition :
  (forall rng size_in hidden_sizes activations parameters size_out net,
      init rng size_in hidden_sizes activations parameters size_out = Ok net ->
      length activations = length hidden_sizes ->
      length parameters = length hidden_sizes ->
      length (loop_items net) = length hidden_sizes - 1
      /\ length (reference_items net) = length hidden_sizes)
  /\ (forall rng g,
        exists net,
          init rng 3 [2]%Z [relu] [None] 2 = Ok net
          /\ forward net (mkTensor [1; 3] g) = Error (RuntimeError MmMismatch)
          /\ exists t,
              forward_reference net (mkTensor [1; 3] g) = Ok t
              /\ shape t = [1; 2]).
Proof.
  split.
  - intros rng size_in hidden_sizes activations parameters size_out net built Ha Hp.
    destruct (init_fields _ _ _ _ _ _ _ built) as (_ & _ & Hfs & Hps & _).
    pose proof (init_weights_length _ _ _ _ _ _ _ built) as Hw.
    pose proof (init_biases_length _ _ _ _ _ _ _ built) as Hb.
    unfold loop_items, reference_items.
    rewrite !zip4_length, !length_removelast, Hfs, Hps. lia.
  - intros rng g. eexists. split; [reflexivity |]. split; [reflexivity |].
    eexists. split; reflexivity.
Qed.

(** C2 fails on the code. For a network constructed with hidden
    layers, [forward] on a batch of [size_in] columns returns a
    [(B, size_out)] tensor only when the last hidden width equals the
    width before it and is [size_out] or 1; otherwise [torch.mm] or the
    sum raises. On the network of the specification's own example,
    [FFNN(300, [50, 30], [relu, sig], [None, None], 10)], and a
    (1, 300) batch, the loop runs once, the (1, 50) output meets the
    (30, 10) last weight matrix and [torch.mm] raises. *)
Theorem forward_fails_on_the_example :
  (forall rng size_in hs0 h activations parameters size_out net B x,
      init rng size_in (hs0 ++ [h]) activations parameters size_out = Ok net ->
      length activations = length (hs0 ++ [h]) ->
      length parameters = length (hs0 ++ [h]) ->
      Forall shape_preserving activations ->
      Forall param_ok parameters ->
      shape x = [B; Z.to_nat size_in] ->
      result_shape (forward net x)
      = if (last hs0 size_in =? h)%Z then
          if ((h =? size_out) || (h =? 1))%Z then Ok [B; Z.to_nat size_out]
          else Error (RuntimeError NotBroadcastable)
        else Error (RuntimeError MmMismatch))
  /\ (forall rng g,
        exists net out,
          init rng 300 [50; 30]%Z [relu; sig] [None; None] 10 = Ok net
          /\ run_layers (loop_items net) (mkTensor [1; 300] g) = Ok out
          /\ shape out = [1; 50]
          /\ map shape (weights net) = [[300; 50]; [50; 30]; [30; 10]]
          /\ forward net (mkTensor [1; 300] g) = Error (RuntimeError MmMismatch)).
Proof.
  split.
  - intros rng size_in hs0 h activations parameters size_out net B x
           built Ha Hp Hf Hok Hx.
    rewrite length_app in Ha, Hp. simpl in Ha, Hp.
    apply (forward_outcome_on_built rng size_in hs0 h activations parameters
             size_out net B x built); auto; lia.
  - intros rng g. eexists. eexists. split; [reflexivity |]. split; [reflexivity |].
    repeat split.
Qed.

(** * Further properties of the class *)

(** ** What construction checks *)

(** Construction checks the sizes and nothing else.  It never succeeds
    with [size_out < 2] or with a negative width; and the activation
    and parameter lists are stored unread, whatever their lengths:
    with any other two lists the same sizes build the same weights
    and biases. *)
Theorem init_checks_sizes_only
    (rng : nat -> list nat -> R) (size_in : Z) (hidden_sizes : list Z)
    (activations : list ActivationFunction) (parameters : list (option Tensor))
    (size_out : Z) (net : FFNN) :
  init rng size_in hidden_sizes activations parameters size_out = Ok net ->
  ((2 <= size_out)%Z /\ (0 <= size_in)%Z /\ Forall (fun h => (0 <= h)%Z) hidden_sizes)
  /\ forall activations' parameters',
       init rng size_in hidden_sizes activations' parameters' size_out
       = Ok (mkFFNN (length activations') (weights net) (biases net)
                    activations' parameters').
Proof.
  intros built. split.
  - split; [exact (init_output_size _ _ _ _ _ _ _ built) |]. split.
    + destruct (init_weight_at _ _ _ _ _ _ _ built 0) as (_ & _ & _ & Hin & _);
        [lia | exact Hin].
    + destruct (init_fields _ _ _ _ _ _ _ built) as (_ & Hb & _).
      exact (torch_zeros_nonneg _ _ Hb).
  - intros activations' parameters'. unfold init in *.
    destruct (size_out <? 2)%Z; [discriminate |].
    apply bind_ok in built as (ws & Hws & built). rewrite Hws.
    apply bind_ok in built as (bs & Hbs & built). rewrite Hbs.
    injection built as <-. reflexivity.
Qed.

Lemma init_checks_sizes_only_witness :
  init zero_rng 2 [2; 2]%Z [] [] 2 = Ok net_2_2_2_2_bare
  /\ ((2 <= 2)%Z /\ (0 <= 2)%Z /\ Forall (fun h => (0 <= h)%Z) [2; 2]%Z)
  /\ forall activations' parameters',
       init zero_rng 2 [2; 2]%Z activations' parameters' 2
       = Ok (mkFFNN (length activations') (weights net_2_2_2_2_bare)
                    (biases net_2_2_2_2_bare) activations' parameters').
Proof.
  split; [reflexivity |].
  exact (init_checks_sizes_only zero_rng 2 [2; 2]%Z [] [] 2 net_2_2_2_2_bare eq_refl).
Defined.

(** ** What the forward pass reads *)

(** The loop of [forward] on a constructed network makes
    [min(len(hidden_sizes) - 1, len(activation_functions),
    len(function_parameters))] passes: a list of activations or
    parameters that is too short is not an error, it shortens the
    loop. *)
Theorem loop_pass_count
    (rng : nat -> list nat -> R) (size_in : Z) (hidden_sizes : list Z)
    (activations : list ActivationFunction) (parameters : list (option Tensor))
    (size_out : Z) (net : FFNN) :
  init rng size_in hidden_sizes activations parameters size_out = Ok net ->
  length (loop_items net)
  = Nat.min (length hidden_sizes - 1)
            (Nat.min (length activations) (length parameters)).
Proof.
  intros built.
  destruct (init_fields _ _ _ _ _ _ _ built) as (_ & _ & Hfs & Hps & _).
  pose proof (init_weights_length _ _ _ _ _ _ _ built) as Hw.
  pose proof (init_biases_length _ _ _ _ _ _ _ built) as Hb.
  unfold loop_items. rewrite zip4_length, !length_removelast, Hfs, Hps, Hw, Hb. lia.
Qed.

Lemma loop_pass_count_witness :
  init zero_rng 2 [2; 2]%Z [] [] 2 = Ok net_2_2_2_2_bare
  /\ length (loop_items net_2_2_2_2_bare)
     = Nat.min (2 - 1) (Nat.min 0 0).
Proof.
  split; [reflexivity |].
  exact (loop_pass_count zero_rng 2 [2; 2]%Z [] [] 2 net_2_2_2_2_bare eq_refl).
Defined.

Lemma zip4_first_cut {A B C D : Type} (la extra : list A) (lb : list B)
    (lc : list C) (ld : list D) :
  length lb <= length la ->
  zip4 (la ++ extra) lb lc ld = zip4 la lb lc ld.
Proof.
  revert lb lc ld. induction la as [| a la IH]; intros lb lc ld Hlen.
  - destruct lb; [| simpl in Hlen; lia]. destruct extra; reflexivity.
  - destruct lb, lc, ld; simpl; try reflexivity.
    rewrite IH; [reflexivity | simpl in Hlen; lia].
Qed.

Lemma zip4_third_cut {A B C D : Type} (la : list A) (lb : list B)
    (lc : list C) (ld : list D) :
  zip4 la lb lc ld = zip4 la lb (firstn (length lb) lc) ld.
Proof.
  revert lb lc ld. induction la as [| a la IH]; intros lb lc ld; [reflexivity |].
  destruct lb, lc, ld; simpl; try reflexivity. now rewrite <- IH.
Qed.

Lemma removelast_two {A : Type} (l : list A) (a b : A) :
  removelast (l ++ [a; b]) = l ++ [a].
Proof.
  change [a; b] with ([a] ++ [b]). rewrite app_assoc. apply removelast_last.
Qed.

Lemma last_item_two (which : param_list) (l : list Tensor) (a b : Tensor) :
  last_item which (l ++ [a; b]) = Ok b.
Proof.
  change [a; b] with ([a] ++ [b]). rewrite app_assoc. apply last_item_app.
Qed.

(** [forward] never reads the weight matrix before the last one when
    there are no more biases than weights but one (as after
    construction): the loop stops one pair earlier.  Replacing that
    matrix changes nothing of what [forward] returns or raises. *)
Theorem forward_ignores_penultimate_weights
    (sz : nat) (ws : list Tensor) (w w' w_last : Tensor) (bs : list Tensor)
    (fs : list ActivationFunction) (ps : list (option Tensor)) (x : Tensor) :
  length bs <= S (length ws) ->
  forward (mkFFNN sz (ws ++ [w; w_last]) bs fs ps) x
  = forward (mkFFNN sz (ws ++ [w'; w_last]) bs fs ps) x.
Proof.
  intros Hlen. unfold forward, loop_items. simpl.
  rewrite !removelast_two, !last_item_two.
  rewrite !zip4_first_cut by (rewrite length_removelast; lia).
  reflexivity.
Qed.

Lemma forward_ignores_penultimate_weights_witness :
  length [zeros_of [2]] <= S (length (@nil Tensor))
  /\ forward (mkFFNN 1 ([] ++ [mkTensor [2; 2] (zero_rng 0); mkTensor [2; 2] (zero_rng 1)])
                [zeros_of [2]] [relu] [None]) (zeros_of [1; 2])
     = forward (mkFFNN 1 ([] ++ [zeros_of [7; 9]; mkTensor [2; 2] (zero_rng 1)])
                  [zeros_of [2]] [relu] [None]) (zeros_of [1; 2]).
Proof.
  split; [simpl; lia |].
  apply (forward_ignores_penultimate_weights 1 [] (mkTensor [2; 2] (zero_rng 0))
           (zeros_of [7; 9]) (mkTensor [2; 2] (zero_rng 1)) [zeros_of [2]] [relu] [None]
           (zeros_of [1; 2])).
  simpl. lia.
Defined.

(** [forward] calls only the first [len(biases) - 1] activations: the
    activation setter changes what [forward] computes only through
    those, so the activation of the last hidden layer is never
    applied. *)
Theorem forward_ignores_late_activations
    (net : FFNN) (nn_functions : list ActivationFunction) (x : Tensor) :
  firstn (length (biases net) - 1) nn_functions
  = firstn (length (biases net) - 1) (activation_functions net) ->
  forward (set_activation_functions net nn_functions) x = forward net x.
Proof.
  intros Hfs. unfold forward, loop_items. simpl.
  rewrite (zip4_third_cut _ _ nn_functions), (zip4_third_cut _ _ (activation_functions net)).
  now rewrite length_removelast, Hfs.
Qed.

Lemma forward_ignores_late_activations_witness :
  firstn (length (biases net_300_50_30_10) - 1) [relu; relu]
  = firstn (length (biases net_300_50_30_10) - 1) (activation_functions net_300_50_30_10)
  /\ forall x,
      forward (set_activation_functions net_300_50_30_10 [relu; relu]) x
      = forward net_300_50_30_10 x.
Proof.
  split; [reflexivity |]. intros x.
  exact (forward_ignores_late_activations net_300_50_30_10 [relu; relu] x eq_refl).
Defined.

(** ** The bias setter *)

(** A network constructed without hidden layers cannot run [forward]
    as built, but it can once a bias is installed: with one vector of
    [size_out] entries set, [forward] on a [(B, size_in)] batch returns
    [softmax(x @ W + b)], of shape [(B, size_out)]. *)
Theorem set_biases_completes_linear_network
    (rng : nat -> list nat -> R) (size_in : Z)
    (activations : list ActivationFunction) (parameters : list (option Tensor))
    (size_out : Z) (net : FFNN) (b x : Tensor) (B : nat) :
  init rng size_in [] activations parameters size_out = Ok net ->
  shape b = [Z.to_nat size_out] ->
  shape x = [B; Z.to_nat size_in] ->
  exists w m s t,
    weights net = [w]
    /\ mm x w = Ok m
    /\ add m b = Ok s
    /\ softmax s 1 = Ok t
    /\ forward (set_biases net [b]) x = Ok t
    /\ shape t = [B; Z.to_nat size_out].
Proof.
  intros built Hb Hx.
  destruct (init_last_weight _ _ _ _ _ _ _ built) as (w & Hw & Hsw). simpl in Hsw.
  pose proof (init_weights_length _ _ _ _ _ _ _ built) as Hlen. simpl in Hlen.
  destruct (weights net) as [| w0 [| ? ?]] eqn:Ews; try discriminate.
  simpl in Hw. injection Hw as ->.
  destruct (mm x w) as [m | e] eqn:Hm.
  2:{ unfold mm in Hm. rewrite Hx, Hsw, Nat.eqb_refl in Hm. discriminate. }
  assert (Hsm : shape m = [B; Z.to_nat size_out]).
  { unfold mm in Hm. rewrite Hx, Hsw, Nat.eqb_refl in Hm. now injection Hm as <-. }
  destruct (add m b) as [s | e] eqn:Hs.
  2:{ unfold add, broadcast_shapes in Hs. rewrite Hsm, Hb in Hs. simpl in Hs.
      rewrite Nat.eqb_refl in Hs. discriminate. }
  assert (Hss : shape s = [B; Z.to_nat size_out]).
  { unfold add, broadcast_shapes in Hs. rewrite Hsm, Hb in Hs. simpl in Hs.
    rewrite Nat.eqb_refl in Hs. simpl in Hs. now injection Hs as <-. }
  destruct (softmax s 1) as [t | e] eqn:Ht.
  2:{ unfold softmax in Ht. rewrite Hss in Ht. discriminate. }
  exists w, m, s, t. repeat split; auto.
  - unfold forward, loop_items. simpl. rewrite Ews. simpl. rewrite Hm. simpl.
    rewrite Hs. simpl. exact Ht.
  - unfold softmax in Ht. rewrite Hss in Ht. simpl in Ht. now injection Ht as <-.
Qed.

Lemma set_biases_completes_linear_network_witness :
  init zero_rng 3 [] [] [] 2 = Ok net_3_2
  /\ shape (zeros_of [2]) = [2]
  /\ shape (zeros_of [4; 3]) = [4; 3]
  /\ exists w m s t,
      weights net_3_2 = [w]
      /\ mm (zeros_of [4; 3]) w = Ok m
      /\ add m (zeros_of [2]) = Ok s
      /\ softmax s 1 = Ok t
      /\ forward (set_biases net_3_2 [zeros_of [2]]) (zeros_of [4; 3]) = Ok t
      /\ shape t = [4; 2].
Proof.
  split; [reflexivity |]. split; [reflexivity |]. split; [reflexivity |].
  exact (set_biases_completes_linear_network zero_rng 3 [] [] 2 net_3_2
           (zeros_of [2]) (zeros_of [4; 3]) 4 eq_refl eq_refl eq_refl).
Defined.

Lemma zip4_bias_shapes (ws bs bs' : list Tensor) fs ps :
  map shape bs = map shape bs' ->
  map item_shapes (zip4 ws bs fs ps) = map item_shapes (zip4 ws bs' fs ps).
Proof.
  intros H. rewrite !zip4_item_shapes. now rewrite H.
Qed.

(** The bias setter checks nothing either.  Replacing the biases by
    tensors of the same shapes leaves the outcome of [forward]
    unchanged in shape, for shape-preserving activations: it succeeds
    or fails as before, and a returned tensor has the shape it had. *)
Theorem set_biases_keeps_shape_outcome
    (net : FFNN) (nn_biases : list Tensor) (x : Tensor) :
  Forall shape_preserving (activation_functions net) ->
  map shape nn_biases = map shape (biases net) ->
  result_shape (forward (set_biases net nn_biases) x) = result_shape (forward net x).
Proof.
  intros Hf Hbs.
  rewrite !forward_result_shape by exact Hf.
  unfold forward_shape, loop_items. simpl.
  rewrite (zip4_bias_shapes (removelast (weights net))
             (removelast nn_biases) (removelast (biases net)))
    by (rewrite !removelast_map; now f_equal).
  now rewrite (last_item_shapes Biases nn_biases (biases net) Hbs).
Qed.

Lemma set_biases_keeps_shape_outcome_witness :
  Forall shape_preserving (activation_functions net_2_2_2)
  /\ map shape [mkTensor [2] (fun _ => 1%R)] = map shape (biases net_2_2_2)
  /\ result_shape (forward (set_biases net_2_2_2 [mkTensor [2] (fun _ => 1%R)])
                           (zeros_of [1; 2]))
     = result_shape (forward net_2_2_2 (zeros_of [1; 2])).
Proof.
  assert (Hf : Forall shape_preserving (activation_functions net_2_2_2)).
  { repeat constructor. apply elementwise_shape_preserving. }
  split; [exact Hf |]. split; [reflexivity |].
  exact (set_biases_keeps_shape_outcome net_2_2_2 [mkTensor [2] (fun _ => 1%R)]
           (zeros_of [1; 2]) Hf eq_refl).
Defined.

(** ** The batch size *)

Lemma broadcast_rows (n p d : nat) (s : list nat) :
  broadcast_shapes [n; p] [d] = Ok s -> exists c, s = [n; c].
Proof.
  unfold broadcast_shapes. simpl.
  destruct (p =? d); simpl; [intros [= <-]; eauto |].
  destruct (p =? 1); simpl; [intros [= <-]; eauto |].
  destruct (d =? 1); simpl; [intros [= <-]; eauto | discriminate].
Qed.

Lemma add_vector_rows (m b s : Tensor) (n p : nat) :
  shape m = [n; p] -> is_vector b -> add m b = Ok s -> exists c, shape s = [n; c].
Proof.
  intros Hm Hb Hs. pose proof (add_result_shape m b) as H.
  rewrite Hs, Hm in H. simpl in H. unfold is_vector in Hb.
  destruct (shape b) as [| d [| ? ?]]; try discriminate.
  symmetry in H. now apply broadcast_rows in H.
Qed.

Lemma shape_preserving_ok (f : ActivationFunction) (t t' : Tensor) (p : option R) :
  shape_preserving f -> f t p = Ok t' -> shape t' = shape t.
Proof.
  intros Hf H. destruct (Hf t p) as (t0 & H0 & Hs). congruence.
Qed.

Lemma layer_step_rows (out out' : Tensor) l :
  shape_preserving (item_activation l) -> is_vector (item_bias l) ->
  layer_step out l = Ok out' ->
  exists n c c', shape out = [n; c] /\ shape out' = [n; c'].
Proof.
  destruct l as [[[w b] f] params]; simpl; intros Hf Hb H.
  assert (Hcore : exists m s p, mm out w = Ok m /\ add m b = Ok s /\ f s p = Ok out').
  { destruct params as [pt |].
    - apply bind_ok in H as (m & Hm & H). apply bind_ok in H as (s & Hs & H).
      apply bind_ok in H as (v & _ & H). eauto 6.
    - apply bind_ok in H as (m & Hm & H). apply bind_ok in H as (s & Hs & H). eauto 6. }
  destruct Hcore as (m & s & p & Hm & Hs & Hact).
  apply mm_ok_shape in Hm as (n & k & q & Hout & _ & Hsm).
  destruct (add_vector_rows _ _ _ _ _ Hsm Hb Hs) as (c' & Hss).
  exists n, k, c'. split; [exact Hout |].
  rewrite (shape_preserving_ok _ _ _ _ Hf Hact). exact Hss.
Qed.

Lemma run_layers_rows ls :
  Forall (fun l => shape_preserving (item_activation l)) ls ->
  Forall (fun l => is_vector (item_bias l)) ls ->
  forall out out' n c,
    run_layers ls out = Ok out' -> shape out' = [n; c] ->
    exists c0, shape out = [n; c0].
Proof.
  intros Hf. induction Hf as [| l ls Hl _ IH]; intros Hb out out' n c Hrun Hs.
  - simpl in Hrun. injection Hrun as ->. eauto.
  - inversion Hb as [| ? ? Hbl Hbls]; subst. simpl in Hrun.
    apply bind_ok in Hrun as (o1 & Hstep & Hrun).
    destruct (IH Hbls _ _ _ _ Hrun Hs) as (c1 & Ho1).
    destruct (layer_step_rows _ _ _ Hl Hbl Hstep) as (n' & k & c' & Hout & Ho1').
    rewrite Ho1 in Ho1'. injection Ho1' as <- _. eauto.
Qed.

Lemma zip4_biases (P : Tensor -> Prop) (ws bs : list Tensor)
    (fs : list ActivationFunction) (ps : list (option Tensor)) :
  Forall P bs -> Forall (fun l => P (item_bias l)) (zip4 ws bs fs ps).
Proof.
  intros Hbs. revert ws fs ps.
  induction Hbs as [| b bs Hb _ IH]; intros ws fs ps.
  - destruct ws; constructor.
  - destruct ws, fs, ps; simpl; constructor; auto.
Qed.

Lemma Forall_removelast {A : Type} (P : A -> Prop) (l : list A) :
  Forall P l -> Forall P (removelast l).
Proof.
  induction 1 as [| a l Ha Hl IH]; [constructor |].
  destruct l; [constructor |]. constructor; assumption.
Qed.

Lemma last_item_Forall (P : Tensor -> Prop) (which : param_list)
    (l : list Tensor) (t : Tensor) :
  Forall P l -> last_item which l = Ok t -> P t.
Proof.
  induction 1 as [| a l Ha Hl IH]; [discriminate |].
  destruct l as [| a' l]; simpl.
  - now intros [= <-].
  - exact IH.
Qed.

(** [forward] keeps the batch size.  In any state of the container in
    which the biases are vectors, and for shape-preserving
    activations, a call that returns was given a matrix and returns a
    matrix with as many rows. *)
Theorem forward_keeps_batch_size (net : FFNN) (x t : Tensor) :
  Forall shape_preserving (activation_functions net) ->
  Forall is_vector (biases net) ->
  forward net x = Ok t ->
  exists B c c', shape x = [B; c] /\ shape t = [B; c'].
Proof.
  intros Hf Hb Hfwd.
  apply forward_ok_steps in Hfwd as (out & w & m & b & s & Hrun & _ & Hm & Hlb & Hs & Ht).
  apply mm_ok_shape in Hm as (n & k & p & Hout & _ & Hsm).
  assert (Hbv : is_vector b) by exact (last_item_Forall _ _ _ _ Hb Hlb).
  destruct (add_vector_rows _ _ _ _ _ Hsm Hbv Hs) as (c' & Hss).
  destruct (run_layers_rows (loop_items net)) with (out := x) (out' := out) (n := n) (c := k)
    as (c0 & Hx); auto.
  - apply zip4_activations. exact Hf.
  - apply zip4_biases. apply Forall_removelast. exact Hb.
  - exists n, c0, c'. split; [exact Hx |].
    unfold softmax in Ht. rewrite Hss in Ht. simpl in Ht. injection Ht as <-. reflexivity.
Qed.

Lemma forward_keeps_batch_size_witness :
  Forall shape_preserving (activation_functions net_2_2_2)
  /\ Forall is_vector (biases net_2_2_2)
  /\ exists t,
      forward net_2_2_2 (zeros_of [5; 2]) = Ok t
      /\ exists B c c', shape (zeros_of [5; 2]) = [B; c] /\ shape t = [B; c'].
Proof.
  assert (Hf : Forall shape_preserving (activation_functions net_2_2_2)).
  { repeat constructor. apply elementwise_shape_preserving. }
  assert (Hb : Forall is_vector (biases net_2_2_2)).
  { repeat constructor. }
  split; [exact Hf |]. split; [exact Hb |].
  eexists. split; [reflexivity |].
  exact (forward_keeps_batch_size net_2_2_2 (zeros_of [5; 2]) _ Hf Hb eq_refl).
Defined.

(** ** Where [IndexError] comes from *)

Lemma mm_error (a b : Tensor) (e : error) :
  mm a b = Error e -> exists r, e = RuntimeError r.
Proof.
  unfold mm.
  destruct (shape a) as [| n [| m [| ? ?]]]; try (intros [= <-]; eauto).
  destruct (shape b) as [| m' [| p [| ? ?]]]; try (intros [= <-]; eauto).
  destruct (m =? m'); [discriminate | intros [= <-]; eauto].
Qed.

Lemma broadcast_rev_error (s1 s2 : list nat) (e : error) :
  broadcast_rev s1 s2 = Error e -> e = RuntimeError NotBroadcastable.
Proof.
  revert s2 e. induction s1 as [| a s1 IH]; intros s2 e; [discriminate |].
  destruct s2 as [| b s2]; [discriminate |]. simpl.
  destruct (broadcast_rev s1 s2) as [s | e'] eqn:E; simpl.
  - destruct (a =? b); [discriminate |]. destruct (a =? 1); [discriminate |].
    destruct (b =? 1); [discriminate | congruence].
  - apply IH in E. subst e'.
    destruct (a =? b); [congruence |]. destruct (a =? 1); [congruence |].
    destruct (b =? 1); congruence.
Qed.

Lemma add_error (a b : Tensor) (e : error) :
  add a b = Error e -> e = RuntimeError NotBroadcastable.
Proof.
  unfold add, broadcast_shapes.
  destruct (broadcast_rev (rev (shape a)) (rev (shape b))) as [s | e'] eqn:E; simpl;
    [discriminate |].
  intros [= <-]. now apply broadcast_rev_error in E.
Qed.

Lemma item_error (t : Tensor) (e : error) :
  item t = Error e -> e = RuntimeError ItemNotScalar.
Proof. unfold item. destruct (numel t =? 1); congruence. Qed.

Lemma softmax_error (t : Tensor) (dim : nat) (e : error) :
  softmax t dim = Error e -> e = RuntimeError DimOutOfRange.
Proof. unfold softmax. destruct (nth_error (shape t) dim); congruence. Qed.

Lemma bind_error {A B : Type} (c : result A) (k : A -> result B) (e : error) :
  bind c k = Error e -> c = Error e \/ exists a, c = Ok a /\ k a = Error e.
Proof. destruct c as [a | e']; simpl; intros H; [eauto | left; congruence]. Qed.

Lemma layer_step_error (out : Tensor) l (e : error) :
  raises_only_its_own (item_activation l) ->
  layer_step out l = Error e -> forall which, e <> IndexError which.
Proof.
  destruct l as [[[w b] f] params]; simpl; intros Hf H which ->.
  destruct params as [pt |].
  - apply bind_error in H as [H | (m & _ & H)];
      [apply mm_error in H as (r & H); discriminate |].
    apply bind_error in H as [H | (s & _ & H)];
      [apply add_error in H; discriminate |].
    apply bind_error in H as [H | (v & _ & H)];
      [apply item_error in H; discriminate |].
    apply Hf in H as (code & H). discriminate.
  - apply bind_error in H as [H | (m & _ & H)];
      [apply mm_error in H as (r & H); discriminate |].
    apply bind_error in H as [H | (s & _ & H)];
      [apply add_error in H; discriminate |].
    apply Hf in H as (code & H). discriminate.
Qed.

Lemma run_layers_error ls :
  Forall (fun l => raises_only_its_own (item_activation l)) ls ->
  forall out e which, run_layers ls out = Error e -> e <> IndexError which.
Proof.
  induction 1 as [| l ls Hl _ IH]; intros out e which H; [discriminate |].
  simpl in H. apply bind_error in H as [H | (o1 & _ & H)].
  - now apply (layer_step_error _ _ _ Hl H).
  - now apply (IH _ _ _ H).
Qed.

Lemma last_item_error (which : param_list) (l : list Tensor) (e : error) :
  last_item which l = Error e -> l = [] /\ e = IndexError which.
Proof.
  induction l as [| a l IH]; simpl; [intros [= <-]; auto |].
  destruct l as [| a' l]; [discriminate |].
  intros H. destruct (IH H) as (Hnil & _). discriminate.
Qed.

Lemma loop_items_no_weights (net : FFNN) : weights net = [] -> loop_items net = [].
Proof. unfold loop_items. now intros ->. Qed.

Lemma loop_items_no_biases (net : FFNN) : biases net = [] -> loop_items net = [].
Proof.
  unfold loop_items. intros ->. simpl. now destruct (removelast (weights net)).
Qed.

(** [forward] raises [IndexError] only on an empty parameter list, and
    then always: on [weights[-1]] exactly when the weight list is
    empty, whatever the input; on [biases[-1]] exactly when the bias
    list is empty and the product of the input with the last weight
    matrix is defined.  (Activations are taken to raise exceptions of
    their own only.) *)
Theorem forward_index_errors (net : FFNN) (x : Tensor) :
  Forall raises_only_its_own (activation_functions net) ->
  (forward net x = Error (IndexError Weights) <-> weights net = [])
  /\ (forward net x = Error (IndexError Biases)
      <-> biases net = []
          /\ exists w m, last_item Weights (weights net) = Ok w /\ mm x w = Ok m).
Proof.
  intros Hf.
  assert (Hloop : forall e which,
            run_layers (loop_items net) x = Error e -> e <> IndexError which).
  { intros e which. apply run_layers_error. apply zip4_activations. exact Hf. }
  split; split.
  - unfold forward. intros H.
    apply bind_error in H as [H | (out & _ & H)];
      [exfalso; exact (Hloop _ Weights H eq_refl) |].
    apply bind_error in H as [H | (w & _ & H)];
      [now apply (last_item_error Weights) in H |].
    apply bind_error in H as [H | (m & _ & H)];
      [apply mm_error in H as (r & H); discriminate |].
    apply bind_error in H as [H | (b & _ & H)];
      [apply (last_item_error Biases) in H as (_ & H); discriminate |].
    apply bind_error in H as [H | (s & _ & H)];
      [apply add_error in H; discriminate |].
    apply softmax_error in H. discriminate.
  - intros Hw. unfold forward. rewrite (loop_items_no_weights _ Hw), Hw. reflexivity.
  - unfold forward. intros H.
    apply bind_error in H as [H | (out & Hout & H)];
      [exfalso; exact (Hloop _ Biases H eq_refl) |].
    apply bind_error in H as [H | (w & Hw & H)];
      [apply (last_item_error Weights) in H as (_ & H); discriminate |].
    apply bind_error in H as [H | (m & Hm & H)];
      [apply mm_error in H as (r & H); discriminate |].
    apply bind_error in H as [H | (b & _ & H)].
    + apply (last_item_error Biases) in H as (Hb & _).
      split; [exact Hb |].
      rewrite (loop_items_no_biases _ Hb) in Hout. simpl in Hout.
      injection Hout as <-. eauto.
    + apply bind_error in H as [H | (s & _ & H)];
        [apply add_error in H; discriminate |].
      apply softmax_error in H. discriminate.
  - intros (Hb & w & m & Hw & Hm). unfold forward.
    rewrite (loop_items_no_biases _ Hb). simpl. rewrite Hw. simpl. rewrite Hm. simpl.
    rewrite Hb. reflexivity.
Qed.

Lemma elementwise_raises_nothing (g : R -> R) : raises_only_its_own (elementwise g).
Proof. intros t p e H. discriminate. Qed.

Lemma forward_index_errors_witness :
  Forall raises_only_its_own (activation_functions (set_weights net_2_2_2 []))
  /\ (forward (set_weights net_2_2_2 []) (zeros_of [1; 2]) = Error (IndexError Weights)
      <-> weights (set_weights net_2_2_2 []) = [])
  /\ (forward (set_weights net_2_2_2 []) (zeros_of [1; 2]) = Error (IndexError Biases)
      <-> biases (set_weights net_2_2_2 []) = []
          /\ exists w m,
              last_item Weights (weights (set_weights net_2_2_2 [])) = Ok w
              /\ mm (zeros_of [1; 2]) w = Ok m).
Proof.
  assert (Hf : Forall raises_only_its_own
                 (activation_functions (set_weights net_2_2_2 []))).
  { repeat constructor. apply elementwise_raises_nothing. }
  split; [exact Hf |].
  exact (forward_index_errors (set_weights net_2_2_2 []) (zeros_of [1; 2]) Hf).
Defined.

(** ** What no operation changes *)

Lemma state_after_fixed (net : FFNN) (op : operation) :
  size (state_after net op) = size net
  /\ function_parameters (state_after net op) = function_parameters net.
Proof. destruct op; split; reflexivity. Qed.

(** The parameter list and the recorded size are those of construction
    for good: no operation assigns them, the activation setter
    included.  So however long a list of activations is installed
    later, the loop of [forward] makes no more passes than there were
    parameters at construction. *)
Theorem parameters_fixed_by_construction (net : FFNN) (ops : list operation) :
  size (run_operations net ops) = size net
  /\ function_parameters (run_operations net ops) = function_parameters net
  /\ length (loop_items (run_operations net ops)) <= length (function_parameters net).
Proof.
  assert (H : size (run_operations net ops) = size net
              /\ function_parameters (run_operations net ops) = function_parameters net).
  { unfold run_operations. revert net.
    induction ops as [| op ops IH]; intros net; [split; reflexivity |].
    simpl. destruct (IH (state_after net op)) as (Hs & Hp).
    destruct (state_after_fixed net op) as (Hs' & Hp'). split; congruence. }
  destruct H as (Hs & Hp). split; [exact Hs |]. split; [exact Hp |].
  unfold loop_items. rewrite zip4_length, Hp. lia.
Qed.

(** ** The last bias of a fresh network *)

Lemma add_entry (a b s : Tensor) :
  add a b = Ok s ->
  entry s = (fun idx => entry a (operand_index (shape a) idx)
                        + entry b (operand_index (shape b) idx))%R.
Proof.
  unfold add. destruct (broadcast_shapes (shape a) (shape b)); simpl; [| discriminate].
  now intros [= <-].
Qed.

Lemma operand_index_in_range (r c i j : nat) :
  i < r -> j < c -> operand_index [r; c] [i; j] = [i; j].
Proof.
  intros Hi Hj. unfold operand_index. simpl.
  destruct (Nat.eqb_spec r 1) as [-> | _], (Nat.eqb_spec c 1) as [-> | _];
    repeat f_equal; lia.
Qed.

Lemma sum_upto_ext (f g : nat -> R) (n : nat) :
  (forall k, k < n -> f k = g k) -> sum_upto f n = sum_upto g n.
Proof.
  induction n as [| n IH]; intros H; [reflexivity |].
  simpl. rewrite IH by (intros k Hk; apply H; lia). now rewrite H by lia.
Qed.

(** Construction leaves every bias at zero, so on a network that has
    only been constructed the last step of [forward] adds nothing:
    when [forward] returns, its result is the softmax of the product
    of the loop's output with the last weight matrix, row by row. *)
Theorem fresh_last_bias_is_idle
    (rng : nat -> list nat -> R) (size_in : Z) (hidden_sizes : list Z)
    (activations : list ActivationFunction) (parameters : list (option Tensor))
    (size_out : Z) (net : FFNN) (x t : Tensor) :
  init rng size_in hidden_sizes activations parameters size_out = Ok net ->
  forward net x = Ok t ->
  exists out w m r,
    run_layers (loop_items net) x = Ok out
    /\ last_item Weights (weights net) = Ok w
    /\ mm out w = Ok m
    /\ shape m = [r; Z.to_nat size_out]
    /\ forall i j, i < r -> j < Z.to_nat size_out ->
         entry t [i; j]
         = (exp (entry m [i; j])
            / sum_upto (fun k => exp (entry m [i; k])) (Z.to_nat size_out))%R.
Proof.
  intros built Hfwd.
  apply forward_ok_steps in Hfwd as (out & w & m & b & s & Hrun & Hw & Hm & Hb & Hs & Ht).
  destruct (init_last_weight _ _ _ _ _ _ _ built) as (w' & Hw' & Hsw).
  assert (w' = w) by congruence. subst w'.
  pose proof Hm as Hm'.
  apply mm_ok_shape in Hm' as (n & k & p & _ & Hsw' & Hsm).
  rewrite Hsw in Hsw'. injection Hsw' as _ <-.
  pose proof (init_output_size _ _ _ _ _ _ _ built) as Hout.
  assert (Hc : 2 <= Z.to_nat size_out) by lia.
  destruct hidden_sizes as [| h hs].
  { rewrite (init_no_hidden_no_bias _ _ _ _ _ _ _ built eq_refl) in Hb. discriminate. }
  destruct (init_last_bias _ _ _ _ _ _ _ built) as (b' & Hb' & Hsb & Hzero);
    [discriminate |].
  assert (b' = b) by congruence. subst b'.
  destruct (add_ok_matrix_vector _ _ _ _ _ _ Hsm Hsb Hc Hs) as (Hss & _).
  pose proof (add_entry _ _ _ Hs) as Hes.
  assert (Hcell : forall i j, i < n -> j < Z.to_nat size_out ->
                    entry s [i; j] = entry m [i; j]).
  { intros i j Hi Hj. rewrite Hes, Hzero, Hsm.
    rewrite operand_index_in_range by assumption. apply Rplus_0_r. }
  exists out, w, m, n. repeat split; auto.
  intros i j Hi Hj.
  unfold softmax in Ht. rewrite Hss in Ht. simpl in Ht. injection Ht as <-. simpl.
  rewrite Hcell by assumption. f_equal.
  apply sum_upto_ext. intros k' Hk. now rewrite Hcell.
Qed.

Lemma fresh_last_bias_is_idle_witness :
  init zero_rng 2 [2]%Z [relu] [None] 2 = Ok net_2_2_2
  /\ exists t,
      forward net_2_2_2 (zeros_of [1; 2]) = Ok t
      /\ exists out w m r,
          run_layers (loop_items net_2_2_2) (zeros_of [1; 2]) = Ok out
          /\ last_item Weights (weights net_2_2_2) = Ok w
          /\ mm out w = Ok m
          /\ shape m = [r; 2]
          /\ forall i j, i < r -> j < 2 ->
               entry t [i; j]
               = (exp (entry m [i; j]) / sum_upto (fun k => exp (entry m [i; k])) 2)%R.
Proof.
  split; [reflexivity |]. eexists. split; [reflexivity |].
  exact (fresh_last_bias_is_idle zero_rng 2 [2]%Z [relu] [None] 2 net_2_2_2
           (zeros_of [1; 2]) _ eq_refl eq_refl).
Defined.

(** ** [backward] *)

Lemma broadcast_rev_same (s : list nat) : broadcast_rev s s = Ok s.
Proof.
  induction s as [| a s IH]; [reflexivity |].
  simpl. now rewrite Nat.eqb_refl, IH.
Qed.

Lemma broadcast_shapes_same (s : list nat) : broadcast_shapes s s = Ok s.
Proof.
  unfold broadcast_shapes. rewrite broadcast_rev_same. simpl. now rewrite rev_involutive.
Qed.

Lemma sub_result_shape (a b : Tensor) :
  result_shape (sub a b) = broadcast_shapes (shape a) (shape b).
Proof.
  unfold sub. destruct (broadcast_shapes (shape a) (shape b)); reflexivity.
Qed.

(** [backward] returns exactly when the batch [x] has a first axis of
    non-zero size and [y_pred] and [y] can be broadcast together, in
    particular when they have the same shape.  It raises [IndexError]
    exactly on an [x] without axes and [ZeroDivisionError] exactly on
    an empty batch, before [y] and [y_pred] are looked at.  It reads
    nothing of the network. *)
Theorem backward_outcome (net : FFNN) (x y y_pred : Tensor) :
  (backward net x y y_pred = Returns tt
   <-> (exists n rest, shape x = S n :: rest)
       /\ exists s, broadcast_shapes (shape y_pred) (shape y) = Ok s)
  /\ (backward net x y y_pred = Raises SizeIndexError <-> shape x = [])
  /\ (backward net x y y_pred = Raises ZeroDivisionError
      <-> exists rest, shape x = 0 :: rest)
  /\ (shape y = shape y_pred ->
      (exists n rest, shape x = S n :: rest) ->
      backward net x y y_pred = Returns tt)
  /\ (forall net', backward net' x y y_pred = backward net x y y_pred).
Proof.
  assert (Hcases :
    backward net x y y_pred
    = match shape x with
      | [] => Raises SizeIndexError
      | 0 :: _ => Raises ZeroDivisionError
      | S _ :: _ =>
          match broadcast_shapes (shape y_pred) (shape y) with
          | Ok _ => Returns tt
          | Error e => Raises (TensorError e)
          end
      end).
  { unfold backward, out_layer_loss.
    destruct (shape x) as [| [| n] rest]; try reflexivity.
    simpl. rewrite <- sub_result_shape.
    destruct (sub y_pred y); reflexivity. }
  split; [split |].
  - intros H. rewrite Hcases in H.
    destruct (shape x) as [| [| n] rest]; try discriminate.
    split; [eauto |].
    destruct (broadcast_shapes (shape y_pred) (shape y)); [eauto | discriminate].
  - intros ((n & rest & Hx) & s & Hs). rewrite Hcases, Hx, Hs. reflexivity.
  - split; [split |].
    + rewrite Hcases. destruct (shape x) as [| [| n] rest]; try discriminate; auto.
      destruct (broadcast_shapes (shape y_pred) (shape y)); discriminate.
    + intros Hx. rewrite Hcases, Hx. reflexivity.
    + split; [split |].
      * rewrite Hcases. destruct (shape x) as [| [| n] rest]; try discriminate; eauto.
        destruct (broadcast_shapes (shape y_pred) (shape y)); discriminate.
      * intros (rest & Hx). rewrite Hcases, Hx. reflexivity.
      * split.
        -- intros Hy (n & rest & Hx).
           rewrite Hcases, Hx, Hy, broadcast_shapes_same. reflexivity.
        -- intros net'. rewrite Hcases. unfold backward, out_layer_loss.
           destruct (shape x) as [| [| n] rest]; try reflexivity.
           simpl. rewrite <- sub_result_shape.
           destruct (sub y_pred y); reflexivity.
Qed.

(** ** The printers *)

Module PrintingFacts.
Import String Ascii.
Local Open Scope string_scope.

Example print_weights_example :
  Printing.print_weights net_300_50_30_10
  = ["Weights:";
     Printing.tab ++ "Layer 0: torch.Size([300, 50])";
     Printing.tab ++ "Layer 1: torch.Size([50, 30])";
     Printing.tab ++ "Layer 2: torch.Size([30, 10])"].
Proof. vm_compute. reflexivity. Qed.

Example print_biases_example :
  Printing.print_biases net_300_50_30_10
  = ["Biases:";
     Printing.tab ++ "Layer 0: torch.Size([50])";
     Printing.tab ++ "Layer 1: torch.Size([30])"].
Proof. vm_compute. reflexivity. Qed.

Lemma map_combine_seq {A B : Type} (g : nat -> A -> B) (d : A) (l : list A) (a : nat) :
  map (fun '(i, v) => g i v) (combine (seq a (List.length l)) l)
  = map (fun i => g i (nth (i - a) l d)) (seq a (List.length l)).
Proof.
  revert a. induction l as [| v l IH]; intros a; [reflexivity |].
  simpl. rewrite Nat.sub_diag. f_equal.
  rewrite IH. apply map_ext_in. intros i Hi. apply in_seq in Hi.
  replace (i - a)%nat with (S (i - S a)) by lia. reflexivity.
Qed.

Lemma enumerate_lines {A : Type} (g : nat -> A -> string) (d : A) (l : list A) :
  map (fun '(i, v) => g i v) (Printing.enumerate l)
  = map (fun i => g i (nth i l d)) (seq 0 (List.length l)).
Proof.
  unfold Printing.enumerate. rewrite (map_combine_seq g d).
  apply map_ext. intros i. now rewrite Nat.sub_0_r.
Qed.

(** On a constructed network [print_weights] writes the header and
    then one line per pair of consecutive layer widths, in order:
    [Layer i: torch.Size([n_i, n_{i+1}])].  Nothing of the random
    initial values shows. *)
Theorem print_weights_of_built
    (rng : nat -> list nat -> R) (size_in : Z) (hidden_sizes : list Z)
    (activations : list ActivationFunction) (parameters : list (option Tensor))
    (size_out : Z) (net : FFNN) :
  init rng size_in hidden_sizes activations parameters size_out = Ok net ->
  Printing.print_weights net
  = "Weights:"
    :: map (fun i =>
              Printing.layer_line i
                [Z.to_nat (nth i (size_in :: hidden_sizes ++ [size_out]) 0%Z);
                 Z.to_nat (nth (S i) (size_in :: hidden_sizes ++ [size_out]) 0%Z)])
           (seq 0 (S (List.length hidden_sizes))).
Proof.
  intros built. unfold Printing.print_weights. f_equal.
  rewrite (enumerate_lines (fun i w => Printing.layer_line i (shape w)) (zeros_of [])).
  rewrite (init_weights_length _ _ _ _ _ _ _ built).
  apply map_ext_in. intros i Hi. apply in_seq in Hi.
  destruct (init_weight_at _ _ _ _ _ _ _ built i) as (w & Hw & Hs & _); [lia |].
  rewrite (nth_error_nth _ _ _ Hw), Hs. reflexivity.
Qed.

Lemma print_weights_of_built_witness :
  init zero_rng 300 [50; 30]%Z [relu; sig] [None; None] 10 = Ok net_300_50_30_10
  /\ Printing.print_weights net_300_50_30_10
     = "Weights:"
       :: map (fun i =>
                 Printing.layer_line i
                   [Z.to_nat (nth i [300; 50; 30; 10]%Z 0%Z);
                    Z.to_nat (nth (S i) [300; 50; 30; 10]%Z 0%Z)])
              (seq 0 3).
Proof.
  split; [reflexivity |].
  exact (print_weights_of_built zero_rng 300 [50; 30]%Z [relu; sig] [None; None] 10
           net_300_50_30_10 eq_refl).
Defined.

(** On a constructed network [print_biases] writes the header and then
    one line per hidden layer, [Layer i: torch.Size([hidden_sizes[i]])]:
    there is no line for the output layer. *)
Theorem print_biases_of_built
    (rng : nat -> list nat -> R) (size_in : Z) (hidden_sizes : list Z)
    (activations : list ActivationFunction) (parameters : list (option Tensor))
    (size_out : Z) (net : FFNN) :
  init rng size_in hidden_sizes activations parameters size_out = Ok net ->
  Printing.print_biases net
  = "Biases:"
    :: map (fun i => Printing.layer_line i [Z.to_nat (nth i hidden_sizes 0%Z)])
           (seq 0 (List.length hidden_sizes)).
Proof.
  intros built. unfold Printing.print_biases. f_equal.
  rewrite (enumerate_lines (fun i b => Printing.layer_line i (shape b)) (zeros_of [])).
  rewrite (init_biases_length _ _ _ _ _ _ _ built).
  apply map_ext_in. intros i Hi. apply in_seq in Hi.
  destruct (nth_error hidden_sizes i) as [h |] eqn:Hh.
  2:{ apply nth_error_None in Hh. lia. }
  destruct (init_bias_at _ _ _ _ _ _ _ built _ _ Hh) as (b & Hb & Hs & _).
  rewrite (nth_error_nth _ _ _ Hb), (nth_error_nth _ _ _ Hh), Hs. reflexivity.
Qed.

Lemma print_biases_of_built_witness :
  init zero_rng 300 [50; 30]%Z [relu; sig] [None; None] 10 = Ok net_300_50_30_10
  /\ Printing.print_biases net_300_50_30_10
     = "Biases:"
       :: map (fun i => Printing.layer_line i [Z.to_nat (nth i [50; 30]%Z 0%Z)])
              (seq 0 2).
Proof.
  split; [reflexivity |].
  exact (print_biases_of_built zero_rng 300 [50; 30]%Z [relu; sig] [None; None] 10
           net_300_50_30_10 eq_refl).
Defined.

End PrintingFacts.

(** ** The rows of the result *)

Lemma vectors_of_shapes (hs : list Z) (bs : list Tensor) :
  map shape bs = map (fun h => [Z.to_nat h]) hs -> Forall is_vector bs.
Proof.
  revert hs. induction bs as [| b bs IH]; intros [| h hs] H; try discriminate;
    constructor.
  - simpl in H. injection H as Hb _. unfold is_vector. now rewrite Hb.
  - simpl in H. injection H as _ Hbs. now apply (IH hs).
Qed.

Lemma built_biases_are_vectors
    (rng : nat -> list nat -> R) (size_in : Z) (hidden_sizes : list Z)
    (activations : list ActivationFunction) (parameters : list (option Tensor))
    (size_out : Z) (net : FFNN) :
  init rng size_in hidden_sizes activations parameters size_out = Ok net ->
  Forall is_vector (biases net).
Proof.
  intros built. apply (vectors_of_shapes hidden_sizes).
  exact (init_bias_shapes _ _ _ _ _ _ _ built).
Qed.

Lemma returned_rows_counted (net : FFNN) (x t : Tensor) (B c : nat) :
  Forall shape_preserving (activation_functions net) ->
  Forall is_vector (biases net) ->
  shape x = [B; c] ->
  forward net x = Ok t ->
  exists c', shape t = [B; c'].
Proof.
  intros Hf Hb Hx Hfwd.
  apply forward_ok_steps in Hfwd as (out & w & m & b & s & Hrun & _ & Hm & Hlb & Hs & Ht).
  apply mm_ok_shape in Hm as (n & k & p & Hout & _ & Hsm).
  assert (Hbv : is_vector b) by exact (last_item_Forall _ _ _ _ Hb Hlb).
  destruct (add_vector_rows _ _ _ _ _ Hsm Hbv Hs) as (c' & Hss).
  destruct (run_layers_rows (loop_items net)) with (out := x) (out' := out) (n := n) (c := k)
    as (c0 & Hx'); auto.
  - apply zip4_activations. exact Hf.
  - apply zip4_biases. apply Forall_removelast. exact Hb.
  - rewrite Hx in Hx'. injection Hx' as -> _. exists c'.
    unfold softmax in Ht. rewrite Hss in Ht. simpl in Ht. now injection Ht as <-.
Qed.

Lemma result_shape_error (r : result Tensor) (e : error) :
  result_shape r = Error e -> r = Error e.
Proof. destruct r; simpl; congruence. Qed.

(** C3 fails on the code. Where [forward] returns on a batch of [B]
    rows, for a constructed network with shape-preserving activations,
    the result has [B] rows and [size_out] columns and each of the [B]
    rows is a probability distribution (softmax over the reals).  But
    on the network of the specification's own example,
    [FFNN(300, [50, 30], [relu, sig], [None, None], 10)], [forward]
    returns for no input at all, so there is no row to speak of: on a
    (B, 300) batch the (B, 50) output of the loop meets the (30, 10)
    last weight matrix and [torch.mm] raises. *)
Theorem forward_returns_no_rows_on_the_example :
  (forall rng size_in hidden_sizes activations parameters size_out net B x t,
      init rng size_in hidden_sizes activations parameters size_out = Ok net ->
      Forall shape_preserving activations ->
      shape x = [B; Z.to_nat size_in] ->
      forward net x = Ok t ->
      shape t = [B; Z.to_nat size_out]
      /\ forall i, i < B ->
           (forall j, j < Z.to_nat size_out -> (0 <= entry t [i; j])%R)
           /\ sum_upto (fun j => entry t [i; j]) (Z.to_nat size_out) = 1%R)
  /\ (forall rng,
        exists net,
          init rng 300 [50; 30]%Z [relu; sig] [None; None] 10 = Ok net
          /\ forall x,
               (exists e, forward net x = Error e)
               /\ forall B, shape x = [B; 300] ->
                    forward net x = Error (RuntimeError MmMismatch)).
Proof.
  split.
  - intros rng size_in hidden_sizes activations parameters size_out net B x t
           built Hf Hx Hfwd.
    destruct (init_fields _ _ _ _ _ _ _ built) as (_ & _ & Hfs & _).
    destruct (returned_rows_normalised _ _ _ _ _ _ _ _ _ built Hfwd) as (r & Hst & Hrows).
    destruct (returned_rows_counted net x t B (Z.to_nat size_in)) as (c' & Hst');
      [now rewrite Hfs | exact (built_biases_are_vectors _ _ _ _ _ _ _ built)
      | exact Hx | exact Hfwd |].
    rewrite Hst in Hst'. injection Hst' as -> _.
    split; [exact Hst |]. intros i _. destruct (Hrows i) as (Hpos & Hsum). auto.
  - intros rng.
    exists (mkFFNN 2
              [mkTensor [300; 50] (rng 0); mkTensor [50; 30] (rng 1);
               mkTensor [30; 10] (rng 2)]
              [zeros_of [50]; zeros_of [30]] [relu; sig] [None; None]).
    split; [reflexivity |]. intros x.
    match goal with
    | |- context [forward ?n x] =>
        assert (Hs : result_shape (forward n x) = forward_shape n (shape x))
    end.
    { apply forward_result_shape. simpl.
      repeat constructor; apply elementwise_shape_preserving. }
    unfold forward_shape, loop_items in Hs. simpl in Hs.
    destruct (shape x) as [| n [| m [| ? ?]]] eqn:Ex; simpl in Hs;
      try (split; [eexists; apply result_shape_error; exact Hs | discriminate]).
    destruct (Nat.eqb_spec m 300) as [-> | Hm]; simpl in Hs.
    + split; [eexists |]; [apply result_shape_error; exact Hs |].
      intros B _. apply result_shape_error. exact Hs.
    + split; [eexists; apply result_shape_error; exact Hs |].
      intros B [= _ ->]. contradiction.
Qed.

Lemma forward_returns_no_rows_on_the_example_witness :
  init half_rng 2 [2; 2]%Z [relu; sig] [None; None] 2 = Ok net_2_2_2_2
  /\ Forall shape_preserving [relu; sig]
  /\ shape (ones_of [3; 2]) = [3; 2]
  /\ exists t,
      forward net_2_2_2_2 (ones_of [3; 2]) = Ok t
      /\ shape t = [3; 2]
      /\ forall i, i < 3 ->
           (forall j, j < 2 -> (0 <= entry t [i; j])%R)
           /\ sum_upto (fun j => entry t [i; j]) 2 = 1%R.
Proof.
  assert (Hf : Forall shape_preserving [relu; sig]).
  { repeat constructor; apply elementwise_shape_preserving. }
  split; [reflexivity |]. split; [exact Hf |]. split; [reflexivity |].
  eexists. split; [reflexivity |].
  exact (proj1 forward_returns_no_rows_on_the_example half_rng 2%Z [2; 2]%Z [relu; sig]
           [None; None] 2%Z net_2_2_2_2 3 (ones_of [3; 2]) _ eq_refl Hf eq_refl eq_refl).
Defined.

(** ** The weight setter *)

(** C9, as the code has it. Replacing the weights by matrices of the
    same shapes keeps the shape contract: with shape-preserving
    activations, where [forward] on a batch yielded a [(B, o)] tensor
    it still does.  Mismatched shapes do not by themselves make
    anything fail: no shape is compared with the construction, what a
    later [forward] does (which exception, or the shape of the result)
    depends on the shapes of the stored matrices and of the input
    only, and there are mismatched lists after which it returns. *)
Theorem set_weights_compares_no_shapes :
  (forall net ws x B o,
      Forall shape_preserving (activation_functions net) ->
      map shape ws = map shape (weights net) ->
      (exists t, forward net x = Ok t /\ shape t = [B; o]) ->
      exists t', forward (set_weights net ws) x = Ok t' /\ shape t' = [B; o])
  /\ (forall net ws ws' x x',
        Forall shape_preserving (activation_functions net) ->
        map shape ws = map shape ws' ->
        shape x = shape x' ->
        result_shape (forward (set_weights net ws) x)
        = result_shape (forward (set_weights net ws') x'))
  /\ (exists net ws x t,
        init half_rng 2 [1]%Z [relu] [None] 2 = Ok net
        /\ Forall2 (fun w w' => shape w <> shape w') ws (weights net)
        /\ forward (set_weights net ws) x = Ok t
        /\ shape t = [1; 2]).
Proof.
  split; [| split; [exact set_weights_shape_outcome |]].
  2:{ exists net_2_1_2, [ones_of [2; 2]; ones_of [2; 2]], (ones_of [1; 2]).
      eexists. split; [reflexivity |]. split; [| split; reflexivity].
      repeat constructor; discriminate. }
  intros net ws x B o Hf Hws (t & Ht & Hst).
  pose proof (set_weights_shape_outcome net ws (weights net) x x Hf Hws eq_refl) as H.
  rewrite set_weights_same, Ht in H. simpl in H.
  destruct (forward (set_weights net ws) x) as [t' | e]; simpl in H; [| discriminate].
  exists t'. split; [reflexivity |]. congruence.
Qed.

Lemma set_weights_compares_no_shapes_witness :
  Forall shape_preserving (activation_functions net_2_2_2_2)
  /\ map shape [ones_of [2; 2]; ones_of [2; 2]; ones_of [2; 2]]
     = map shape (weights net_2_2_2_2)
  /\ (exists t, forward net_2_2_2_2 (ones_of [3; 2]) = Ok t /\ shape t = [3; 2])
  /\ exists t',
      forward (set_weights net_2_2_2_2 [ones_of [2; 2]; ones_of [2; 2]; ones_of [2; 2]])
              (ones_of [3; 2]) = Ok t'
      /\ shape t' = [3; 2].
Proof.
  assert (Hf : Forall shape_preserving (activation_functions net_2_2_2_2)).
  { repeat constructor; apply elementwise_shape_preserving. }
  assert (Hret : exists t, forward net_2_2_2_2 (ones_of [3; 2]) = Ok t /\ shape t = [3; 2]).
  { eexists. split; reflexivity. }
  split; [exact Hf |]. split; [reflexivity |]. split; [exact Hret |].
  exact (proj1 set_weights_compares_no_shapes net_2_2_2_2
           [ones_of [2; 2]; ones_of [2; 2]; ones_of [2; 2]] (ones_of [3; 2]) 3 2
           Hf eq_refl Hret).
Defined.

(** C9 as stated fails, and not through the shortened loop: on
    [FFNN(2, [1], [relu], [None], 2)] the setter takes two (2, 2)
    matrices where construction had (2, 1) and (1, 2), and on a (1, 2)
    batch both [forward] and the pass as the specification describes
    it then return a (1, 2) tensor, the one-entry bias broadcasting
    over both columns. *)
Lemma set_weights_mismatch_need_not_fail :
  init half_rng 2 [1]%Z [relu] [None] 2 = Ok net_2_1_2
  /\ map shape (weights net_2_1_2) = [[2; 1]; [1; 2]]
  /\ weights (set_weights net_2_1_2 [ones_of [2; 2]; ones_of [2; 2]])
     = [ones_of [2; 2]; ones_of [2; 2]]
  /\ (exists t,
        forward (set_weights net_2_1_2 [ones_of [2; 2]; ones_of [2; 2]]) (ones_of [1; 2])
        = Ok t
        /\ shape t = [1; 2])
  /\ (exists t,
        forward_reference (set_weights net_2_1_2 [ones_of [2; 2]; ones_of [2; 2]])
                          (ones_of [1; 2])
        = Ok t
        /\ shape t = [1; 2]).
Proof.
  split; [reflexivity |]. split; [reflexivity |]. split; [reflexivity |].
  split; eexists; split; reflexivity.
Qed.
